(** * train_neural_network.py: label codec, decoders, confidence flags, metrics

    A shallow embedding of the pure part of [train_neural_network.py]
    (the label codec [str2onehot] / [onehot2str], the multi-bucket decoder
    [prob2str_multibucket], the confidence annotator
    [calculatePredictionConfidence] and the metrics pipeline
    [calculatePerformanceMetrics]) together with the properties the
    specification states about them.

    Conventions of the embedding.
    - A Python exception is a value of [exn]; a computation that may raise
      is a [result].
    - A finite IEEE binary64 (or binary32) number is the rational it
      denotes, a value of [Q]; the comparisons [<], [>], [>=] of the source
      are exact on such numbers, hence are the comparisons of [Q].  The one
      non-finite value the pipeline can produce, the [nan] of an average
      over nothing, is the constructor [NaN] of [np_float].
    - A two-dimensional array is the list of its rows.
    - A Python [dict] is a [gmap]; building it from a list of pairs inserts
      the pairs from left to right. *)

From stdpp Require Import base option list gmap strings sorting.
From Stdlib Require Import QArith Lqa.

Local Open Scope string_scope.
Local Open Scope list_scope.

(** ** Python values and exceptions *)

Inductive exn : Type :=
| KeyError          (* dict lookup of an absent key: the spec's UnknownLabelError *)
| IndexError        (* array index out of bounds *)
| ValueError        (* numpy / scikit-learn / builtin argument errors *)
| AssertionError.   (* a failed [assert]: the spec's LengthMismatchError *)

Inductive result (A : Type) : Type :=
| Ok (a : A)
| Raise (e : exn).
Arguments Ok {A} a.
Arguments Raise {A} e.

#[global] Instance result_bind : MBind result := fun A B k m =>
  match m with
  | Ok a => k a
  | Raise e => Raise e
  end.

(** [for x in xs: s = body(s, x)], stopping at the first exception. *)
Fixpoint py_for {A S : Type} (xs : list A) (body : S → A → result S) (s : S)
  : result S :=
  match xs with
  | [] => Ok s
  | x :: xs' => s' ← body s x; py_for xs' body s'
  end.

(** [[f(x) for x in xs]] for an [f] that may raise. *)
Fixpoint py_map {A B : Type} (f : A → result B) (xs : list A) : result (list B) :=
  match xs with
  | [] => Ok []
  | x :: xs' => y ← f x; ys ← py_map f xs'; Ok (y :: ys)
  end.

(** [dict(pairs)]: later pairs overwrite earlier ones. *)
Definition py_dict `{Countable K} {V : Type} (pairs : list (K * V)) : gmap K V :=
  foldl (fun d kv => <[kv.1 := kv.2]> d) ∅ pairs.

(** [d[k]] *)
Definition dict_get `{Countable K} {V : Type} (d : gmap K V) (k : K) : result V :=
  match d !! k with
  | Some v => Ok v
  | None => Raise KeyError
  end.

(** The values a Python list built by this module can hold. *)
Inductive pyobj : Type :=
| PyStr (s : string)
| PyBool (b : bool).

(** ** Numbers *)

Definition Qltb (x y : Q) : bool :=
  match (x ?= y)%Q with Lt => true | _ => false end.

Definition Qleb (x y : Q) : bool := Qle_bool x y.

Definition Zsum (l : list Z) : Z := foldr Z.add 0%Z l.
Definition Qsum (l : list Q) : Q := foldr Qplus 0%Q l.

(** The binary64 number [m * 2^(-e)]. *)
Definition binary64 (m : Z) (e : positive) : Q := m # (2 ^ e).

(** The builtin [max(iterable)]: the first element, replaced by each later
    element that compares greater; [ValueError] on an empty iterable. *)
Fixpoint py_max_from (m : Q) (l : list Q) : Q :=
  match l with
  | [] => m
  | x :: l' => py_max_from (if Qltb m x then x else m) l'
  end.

Definition py_max (l : list Q) : result Q :=
  match l with
  | [] => Raise ValueError
  | x :: l' => Ok (py_max_from x l')
  end.

(** ** NumPy *)

Module np.

(** [np.zeros((r, c))] *)
Definition zeros (r c : nat) : list (list Q) := replicate r (replicate c 0%Q).

(** [a[r, c] = v] *)
Definition set2 (a : list (list Q)) (r c : nat) (v : Q) : result (list (list Q)) :=
  match a !! r with
  | Some row =>
      if decide (c < length row)%nat
      then Ok (<[r := <[c := v]> row]> a)
      else Raise IndexError
  | None => Raise IndexError
  end.

(** [np.vstack(arrays)] for arrays with the same number of columns: the
    rows of all of them, in order.  An empty sequence of arrays is refused
    ("need at least one array to concatenate"). *)
Definition vstack (arrays : list (list (list Q))) : result (list (list Q)) :=
  match arrays with
  | [] => Raise ValueError
  | _ => Ok (concat arrays)
  end.

(** [np.argmax] of a one-dimensional array: the index of the first
    occurrence of the largest element. *)
Fixpoint argmax_from (best_i : nat) (best : Q) (i : nat) (l : list Q) : nat :=
  match l with
  | [] => best_i
  | x :: l' =>
      if Qltb best x then argmax_from i x (S i) l'
      else argmax_from best_i best (S i) l'
  end.

Definition argmax (row : list Q) : result nat :=
  match row with
  | [] => Raise ValueError
  | x :: row' => Ok (argmax_from 0 x 1 row')
  end.

(** [np.argmax(a, axis=1)] of a two-dimensional array. *)
Definition argmax_axis1 (a : list (list Q)) : result (list nat) :=
  py_map argmax a.

End np.

(** ** The label codec *)

(** The literal [0.20], read as the binary64 number nearest to it. *)
Definition PROB_THRESHOLD : Q := binary64 3602879701896397 54.

Definition ENC_LIST : list (string * nat) :=
  [ ("others", 0%nat); ("description", 1%nat); ("skills", 2%nat);
    ("job_title", 3%nat); ("education", 4%nat) ].

Definition ENC_DICT : gmap nat string :=
  py_dict [ (0%nat, "others"); (1%nat, "description"); (2%nat, "skills");
            (3%nat, "job_title"); (4%nat, "education") ].

(** Obtain best class from a given list of class probabilities for every
    prediction. *)
Definition onehot2str (onehot : list (list Q)) : result (list string) :=
  let enc_dict : gmap nat string := py_dict (map (fun i => (i.2, i.1)) ENC_LIST) in
  idx_list ← np.argmax_axis1 onehot;
  py_for idx_list
    (fun result_str i => s ← dict_get enc_dict i; Ok (result_str ++ [s]))
    [].

(** Convert a class to its corresponding one hot vector. *)
Definition str2onehot (Y : list string) : result (list (list Q)) :=
  let enc_dict : gmap string nat := py_dict ENC_LIST in
  new_Y ← py_for Y
    (fun new_Y y =>
       let vec := np.zeros 1 (length ENC_LIST) in
       j ← dict_get enc_dict y;
       vec ← np.set2 vec 0 j 1%Q;
       Ok (new_Y ++ [vec]))
    [];
  np.vstack new_Y.

(** ** The confidence annotator *)

(** The literal [0.65], read as the binary64 number nearest to it. *)
Definition CONFIDENCE_THRESHOLD : Q := binary64 5854679515581645 53.

(** Record model confidence on every prediction. *)
Definition calculatePredictionConfidence (pred : list (list Q)) : result (list pyobj) :=
  py_for pred
    (fun confidence_list probs =>
       m ← py_max probs;
       if Qltb CONFIDENCE_THRESHOLD m
       then Ok (confidence_list ++ [PyStr "YES"])
       else Ok (confidence_list ++ [PyStr "NO"]))
    [].

(** ** The multi-bucket decoder *)

(** [enumerate(l, start)] *)
Fixpoint py_enumerate {A : Type} (start : nat) (l : list A) : list (nat * A) :=
  match l with
  | [] => []
  | x :: l' => (start, x) :: py_enumerate (S start) l'
  end.

(** [s[:-k]]: all of [s] but its last [k] characters, nothing when [s] has
    fewer than [k]. *)
Definition py_drop_last (k : nat) (s : string) : string :=
  String.substring 0 (String.length s - k) s.

(** The body of [prob2str_multibucket], with the module constant
    [PROB_THRESHOLD] it reads as an argument. *)
Definition prob2str_multibucket_at {T : Type} (threshold : Q)
    (probs : list (list Q)) (sens : list T) : result (list string * list T) :=
  let enc_dict : gmap nat string := py_dict (map (fun i => (i.2, i.1)) ENC_LIST) in
  py_for (zip probs sens)
    (fun '(cats, final_sens) '(prob, sen) =>
       classes ← py_for (py_enumerate 0 prob)
         (fun classes '(idx, pro) =>
            if Qleb threshold pro
            then name ← dict_get enc_dict idx; Ok (classes +:+ (name +:+ ", "))
            else Ok classes)
         "";
       Ok (cats ++ [py_drop_last 2 classes], final_sens ++ [sen]))
    ([], []).

(** Obtain a list of all classes for each prediction for which probability
    is greater than a threshold. *)
Definition prob2str_multibucket {T : Type} (probs : list (list Q)) (sens : list T)
  : result (list string * list T) :=
  prob2str_multibucket_at PROB_THRESHOLD probs sens.

(** ** scikit-learn metrics

    The functions of [sklearn.metrics] the module calls, on sequences of
    string labels, following the library's implementation: labels are
    counted ([tp_sum], [pred_sum], [true_sum]), a quotient with a zero
    denominator is set to zero (with a warning), and an average over an
    empty array is [nan].  A computed number is kept in lowest terms
    ([Qred]), so that equal numbers are equal terms. *)

Inductive np_float : Type :=
| Fin (q : Q)
| NaN.

Inductive average : Type := micro | macro | weighted.

Module sk.

(** [np.average(a)] *)
Definition np_average (a : list Q) : np_float :=
  match a with
  | [] => NaN
  | _ => Fin (Qred (Qsum a / inject_Z (Z.of_nat (length a))))
  end.

Definition check_consistent_length {A B : Type} (a : list A) (b : list B)
  : result unit :=
  if decide (length a = length b) then Ok tt else Raise ValueError.

(** How many times [c] occurs in [y]. *)
Definition bincount (y : list string) (c : string) : Z :=
  Z.of_nat (count_occ String.eq_dec y c).

(** The true labels at the positions where the prediction is right. *)
Definition tp_bins (y_true y_pred : list string) : list string :=
  (filter (fun tp => tp.1 = tp.2) (zip y_true y_pred)).*1.

(** The sorted distinct labels of both sequences. *)
Definition unique_labels (y_true y_pred : list string) : list string :=
  merge_sort String.le (remove_dups (y_true ++ y_pred)).

(** [accuracy_score(y_true, y_pred, normalize=False)] *)
Definition accuracy_count (y_true y_pred : list string) : result Z :=
  _ ← check_consistent_length y_true y_pred;
  Ok (Z.of_nat (length (tp_bins y_true y_pred))).

(** [accuracy_score(y_true, y_pred)] *)
Definition accuracy_score (y_true y_pred : list string) : result np_float :=
  _ ← check_consistent_length y_true y_pred;
  Ok (np_average
        (map (fun tp => if decide (tp.1 = tp.2) then 1%Q else 0%Q) (zip y_true y_pred))).

Definition prf_divide (numerator denominator : Z) : Q :=
  if decide (denominator = 0%Z) then 0%Q
  else Qred (inject_Z numerator / inject_Z denominator).

Definition f_score (tp_sum : Z) (precision recall : Q) : Q :=
  if decide (tp_sum = 0%Z) then 0%Q
  else Qred (2 * precision * recall / (precision + recall)).

(** Precision, recall and F1 of one class against the rest. *)
Definition prf_of_sums (tp_sum pred_sum true_sum : Z) : Q * Q * Q :=
  let precision := prf_divide tp_sum pred_sum in
  let recall := prf_divide tp_sum true_sum in
  (precision, recall, f_score tp_sum precision recall).

(** [precision_recall_fscore_support(y_true, y_pred, labels=labels,
    average=None)]: one triple per label of [labels], in that order. *)
Definition prf_per_label (y_true y_pred labels : list string)
  : result (list (Q * Q * Q)) :=
  _ ← check_consistent_length y_true y_pred;
  Ok (map (fun c => prf_of_sums (bincount (tp_bins y_true y_pred) c)
                                (bincount y_pred c) (bincount y_true c))
          labels).

(** [precision_recall_fscore_support(y_true, y_pred, average=avg)], over
    the labels present in the data. *)
Definition prf_averaged (y_true y_pred : list string) (avg : average)
  : result (np_float * np_float * np_float) :=
  _ ← check_consistent_length y_true y_pred;
  let labels := unique_labels y_true y_pred in
  let tp_sum := map (bincount (tp_bins y_true y_pred)) labels in
  let pred_sum := map (bincount y_pred) labels in
  let true_sum := map (bincount y_true) labels in
  match avg with
  | micro =>
      let '(p, r, f) := prf_of_sums (Zsum tp_sum) (Zsum pred_sum) (Zsum true_sum) in
      Ok (Fin p, Fin r, Fin f)
  | macro =>
      let prf := map (fun c => prf_of_sums (bincount (tp_bins y_true y_pred) c)
                                           (bincount y_pred c) (bincount y_true c))
                     labels in
      Ok (np_average (prf.*1.*1), np_average (prf.*1.*2), np_average (prf.*2))
  | weighted =>
      let prf := map (fun c => prf_of_sums (bincount (tp_bins y_true y_pred) c)
                                           (bincount y_pred c) (bincount y_true c))
                     labels in
      if decide (Zsum true_sum = 0%Z) then Ok (Fin 0, Fin 0, Fin 0)
      else
        let wavg (a : list Q) : np_float :=
          Fin (Qred (Qsum (zip_with (fun w x => inject_Z w * x)%Q true_sum a)
                     / inject_Z (Zsum true_sum))) in
        Ok (wavg (prf.*1.*1), wavg (prf.*1.*2), wavg (prf.*2))
  end.

(** [precision_score(y_true, y_pred, average=None, labels=labels)] *)
Definition precision_score_per_class (y_true y_pred labels : list string)
  : result (list Q) :=
  prf ← prf_per_label y_true y_pred labels; Ok (prf.*1.*1).

(** [recall_score(y_true, y_pred, average=None, labels=labels)] *)
Definition recall_score_per_class (y_true y_pred labels : list string)
  : result (list Q) :=
  prf ← prf_per_label y_true y_pred labels; Ok (prf.*1.*2).

(** [f1_score(y_true, y_pred, average=None, labels=labels)] *)
Definition f1_score_per_class (y_true y_pred labels : list string)
  : result (list Q) :=
  prf ← prf_per_label y_true y_pred labels; Ok (prf.*2).

(** [precision_score(y_true, y_pred, average=avg)] *)
Definition precision_score (y_true y_pred : list string) (avg : average)
  : result np_float :=
  prf ← prf_averaged y_true y_pred avg; Ok (prf.1.1).

(** [recall_score(y_true, y_pred, average=avg)] *)
Definition recall_score (y_true y_pred : list string) (avg : average)
  : result np_float :=
  prf ← prf_averaged y_true y_pred avg; Ok (prf.1.2).

(** [f1_score(y_true, y_pred, average=avg)] *)
Definition f1_score (y_true y_pred : list string) (avg : average)
  : result np_float :=
  prf ← prf_averaged y_true y_pred avg; Ok (prf.2).

(** [confusion_matrix(y_true, y_pred, labels=labels)]: entry [i], [j]
    counts the samples of true class [labels[i]] predicted as
    [labels[j]].  The call is refused when no label of [labels] occurs
    in [y_true] ("At least one label specified must be in y_true"); the
    releases that instead return a zero matrix for an empty [y_true] agree
    with this on every non-empty input. *)
Definition confusion_matrix (y_true y_pred labels : list string)
  : result (list (list Z)) :=
  _ ← check_consistent_length y_true y_pred;
  if forallb (fun l => negb (bool_decide (l ∈ y_true))) labels
  then Raise ValueError
  else Ok (map (fun t =>
                  map (fun p => Z.of_nat (length (filter (fun tp => tp = (t, p))
                                                         (zip y_true y_pred))))
                      labels)
               labels).

End sk.

(** ** The metrics engine *)

(** [l[i]] *)
Definition list_get {A : Type} (l : list A) (i : nat) : result A :=
  match l !! i with
  | Some x => Ok x
  | None => Raise IndexError
  end.

(** The dictionary [{'precision': _, 'recall': _, 'f1': _}]. *)
Record scores : Type := mk_scores { precision : Q; recall : Q; f1 : Q }.

(** Computes precision, recall and F1 scores for every class. *)
Definition precision_recall_f1 (Y_pred Y_test classlist : list string)
  : result (gmap string scores) :=
  precision ← sk.precision_score_per_class Y_test Y_pred classlist;
  recall ← sk.recall_score_per_class Y_test Y_pred classlist;
  f1 ← sk.f1_score_per_class Y_test Y_pred classlist;
  py_for (seq 0 (length classlist))
    (fun (metrics : gmap string scores) i =>
       c ← list_get classlist i;
       p ← list_get precision i;
       r ← list_get recall i;
       f ← list_get f1 i;
       Ok (<[c := mk_scores p r f]> metrics))
    ∅.

(** Computes micro, macro and weighted values for precision, recall and f1
    scores. *)
Definition micro_macro_weighted (Y_pred Y_true : list string)
  : result (gmap string np_float) :=
  let results : gmap string np_float := ∅ in
  v ← sk.precision_score Y_true Y_pred micro;
  let results := <["micro_precision" := v]> results in
  v ← sk.precision_score Y_true Y_pred macro;
  let results := <["macro_precision" := v]> results in
  v ← sk.precision_score Y_true Y_pred weighted;
  let results := <["weighted_precision" := v]> results in
  v ← sk.recall_score Y_true Y_pred micro;
  let results := <["micro_recall" := v]> results in
  v ← sk.recall_score Y_true Y_pred macro;
  let results := <["macro_recall" := v]> results in
  v ← sk.recall_score Y_true Y_pred weighted;
  let results := <["weighted_recall" := v]> results in
  v ← sk.f1_score Y_true Y_pred micro;
  let results := <["micro_f1" := v]> results in
  v ← sk.f1_score Y_true Y_pred macro;
  let results := <["macro_f1" := v]> results in
  v ← sk.f1_score Y_true Y_pred weighted;
  let results := <["weighted_f1" := v]> results in
  Ok results.

(** One call of [logger.info]: the text before the value, the value whose
    [str] is appended, and for the list of labels the text after it. *)
Inductive logged : Type :=
| LogText (msg : string)
| LogInt (msg : string) (z : Z)
| LogFloat (msg : string) (x : np_float)
| LogScore (msg : string) (q : Q)
| LogLabels (msg : string) (labels : list string) (rest : string)
| LogMatrix (m : list (list Z)).

(** What one call of [calculatePerformanceMetrics] computes: its local
    variables when it returns, and the lines it has logged. *)
Record report : Type := mk_report {
  num_incorrect : Z;
  accuracy : np_float;
  metrics : gmap string scores;
  micro_macro_weighted_scores : gmap string np_float;
  cf_matrix : list (list Z);
  log : list logged
}.

(** The local [classlist] of [calculatePerformanceMetrics]: the fixed order
    of the classes in its report. *)
Definition classlist : list string :=
  [ "description"; "job_title"; "education"; "others"; "skills" ].

(** Calculate and display various accuracy, precision, recall and f1
    scores.  The source function returns nothing; the embedding returns the
    [report] of what it computed and logged. *)
Definition calculatePerformanceMetrics (Y_pred Y_true : list string)
    (dataset_type : string) : result report :=
  if negb (bool_decide (length Y_pred = length Y_true)) then Raise AssertionError
  else
  matches ← sk.accuracy_count Y_true Y_pred;
  let num_incorrect := (Z.of_nat (length Y_true) - matches)%Z in
  accuracy ← sk.accuracy_score Y_true Y_pred;
  metrics ← precision_recall_f1 Y_pred Y_true classlist;
  micro_macro_weighted_scores ← micro_macro_weighted Y_pred Y_true;
  cf_matrix ← sk.confusion_matrix Y_true Y_pred classlist;
  let log :=
    [ LogText ("Results for " +:+ dataset_type +:+ " set...");
      LogInt "Number of cases that were incorrect: " num_incorrect;
      LogFloat "Accuracy: " accuracy ] in
  log ← py_for (seq 0 (length classlist))
    (fun log i =>
       c ← list_get classlist i;
       m ← dict_get metrics c;
       Ok (log ++ [ LogScore ("Precision " +:+ c +:+ ": ") (precision m);
                    LogScore ("Recall " +:+ c +:+ ": ") (recall m);
                    LogScore ("F1 " +:+ c +:+ ": ") (f1 m) ]))
    log;
  log ← py_for
    [ ("Micro precision: ", "micro_precision"); ("Micro recall: ", "micro_recall");
      ("Micro f1: ", "micro_f1");
      ("Macro precision: ", "macro_precision"); ("Macro recall: ", "macro_recall");
      ("Macro f1: ", "macro_f1");
      ("Weighted precision: ", "weighted_precision");
      ("Weighted recall: ", "weighted_recall"); ("Weighted f1: ", "weighted_f1") ]
    (fun log '(msg, key) =>
       v ← dict_get micro_macro_weighted_scores key;
       Ok (log ++ [LogFloat msg v]))
    log;
  let log := log ++ [ LogLabels "Confusion Matrix below " classlist " : ";
                      LogMatrix cf_matrix ] in
  Ok (mk_report num_incorrect accuracy metrics micro_macro_weighted_scores cf_matrix log).

(** ** Class probabilities *)

(** Obtain a list of class probability values for every prediction: one
    dictionary per row, from the label [ENC_DICT[j]] to [pred[i][j]].  In
    the assignment the right-hand side is evaluated before the key. *)
Definition recordClassProbabilites (pred : list (list Q))
  : result (list (gmap string Q)) :=
  py_for (seq 0 (length pred))
    (fun class_probabilities i =>
       row ← list_get pred i;
       prob_per_sentence ← py_for (seq 0 (length row))
         (fun (prob_per_sentence : gmap string Q) j =>
            row ← list_get pred i;
            v ← list_get row j;
            name ← dict_get ENC_DICT j;
            Ok (<[name := v]> prob_per_sentence))
         ∅;
       Ok (class_probabilities ++ [prob_per_sentence]))
    [].

(** * Vocabulary of the specification *)

(** The fixed set of class labels, and the one-hot vector of an index. *)
Definition class_labels : list string := ENC_LIST.*1.

Definition onehot (j : nat) : list Q := <[j := 1%Q]> (replicate 5 0%Q).

(** The body of the loop of [str2onehot] for one label. *)
Definition encode_label (y : string) : result (list (list Q)) :=
  j ← dict_get (py_dict ENC_LIST) y;
  np.set2 (np.zeros 1 (length ENC_LIST)) 0 j 1%Q.

(** [i] is the position of the first occurrence of the largest element of
    [row]. *)
Definition first_max (row : list Q) (i : nat) : Prop :=
  ∃ x, row !! i = Some x
       ∧ (∀ j y, row !! j = Some y → (y <= x)%Q)
       ∧ (∀ j y, (j < i)%nat → row !! j = Some y → (y < x)%Q).

(** The class labels whose probability in [prob] is at least [threshold],
    in the order of their class index. *)
Definition labels_at_or_above (threshold : Q) (prob : list Q) : list string :=
  omap (fun i =>
          match prob !! i with
          | Some p => if Qleb threshold p then ENC_DICT !! i else None
          | None => None
          end)
       (seq 0 5).

(** Those labels joined by [", "]: nothing after the last one, and the
    empty string when there is none. *)
Definition bucket_string (threshold : Q) (prob : list Q) : string :=
  String.concat ", " (labels_at_or_above threshold prob).

(** The labels the inner loop picks from position [i] on. *)
Fixpoint picked (threshold : Q) (i : nat) (prob : list Q) : list string :=
  match prob with
  | [] => []
  | p :: prob' =>
      (if Qleb threshold p then option_list (ENC_DICT !! i) else [])
      ++ picked threshold (S i) prob'
  end.

(** The body of the inner loop of [prob2str_multibucket], over the
    dictionary [ENC_DICT]. *)
Definition bucket_step (threshold : Q) (classes : string) (ip : nat * Q)
  : result string :=
  let '(idx, pro) := ip in
  if Qleb threshold pro
  then name ← dict_get ENC_DICT idx; Ok (classes +:+ (name +:+ ", "))
  else Ok classes.

(** The labels of a list, each followed by [", "]: what the inner loop of
    [prob2str_multibucket] accumulates. *)
Fixpoint with_trailing (names : list string) : string :=
  match names with
  | [] => ""
  | n :: names' => n +:+ (", " +:+ with_trailing names')
  end.

(** The largest value of [row] is strictly greater than [t]. *)
Definition max_exceeds (t : Q) (row : list Q) : Prop :=
  ∃ m, m ∈ row ∧ Forall (fun x => (x <= m)%Q) row ∧ (t < m)%Q.

(** The flag of one row. *)
Definition confidence_flag (probs : list Q) : result pyobj :=
  m ← py_max probs;
  Ok (PyStr (if Qltb CONFIDENCE_THRESHOLD m then "YES" else "NO")).

(** The rows of the spec's example, as binary64 numbers:
    [0.7, 0.1, 0.1, 0.05, 0.05] and [0.3, 0.3, 0.2, 0.1, 0.1]. *)
Definition confident_row : list Q :=
  [ binary64 3152519739159347 52; binary64 3602879701896397 55;
    binary64 3602879701896397 55; binary64 3602879701896397 56;
    binary64 3602879701896397 56 ].

Definition unsure_row : list Q :=
  [ binary64 5404319552844595 54; binary64 5404319552844595 54;
    binary64 3602879701896397 54; binary64 3602879701896397 55;
    binary64 3602879701896397 55 ].

(** The scores scikit-learn gives class [c]. *)
Definition class_scores (Y_true Y_pred : list string) (c : string) : scores :=
  let '(p, r, f) :=
    sk.prf_of_sums (sk.bincount (sk.tp_bins Y_true Y_pred) c)
                   (sk.bincount Y_pred c) (sk.bincount Y_true c) in
  mk_scores p r f.

(** How many positions hold the same label in both sequences. *)
Definition matching_positions (Y_pred Y_true : list string) : nat :=
  length (filter (fun k => Y_pred !! k = Y_true !! k) (seq 0 (length Y_true))).

(** The dictionary [recordClassProbabilites] builds for one row. *)
Definition row_probabilities (row : list Q) : result (gmap string Q) :=
  py_for (py_enumerate 0 row)
    (fun (d : gmap string Q) '(j, v) =>
       name ← dict_get ENC_DICT j; Ok (<[name := v]> d))
    ∅.

(** Some entry of [prob], the row starting at column [i], sits at a column
    past the five classes and reaches [threshold]. *)
Fixpoint overflows (threshold : Q) (i : nat) (prob : list Q) : bool :=
  match prob with
  | [] => false
  | p :: prob' =>
      (Qleb threshold p && negb (i <? 5)%nat) || overflows threshold (S i) prob'
  end.

(** The sum of all entries of a matrix, and the sum of its diagonal. *)
Definition matrix_total (m : list (list Z)) : Z := Zsum (Zsum <$> m).

Definition matrix_trace (m : list (list Z)) : Z :=
  Zsum (imap (fun i row => default 0%Z (row !! i)) m).

(** Case analysis on membership in a list given by its elements. *)
Ltac elem_cases H :=
  repeat match type of H with
    | _ ∈ _ :: _ => apply elem_of_cons in H as [H | H]
    | _ ∈ [] => by apply elem_of_nil in H
    end;
  simplify_eq.

(** * Properties *)

(** ** The embedding at work *)

Example str2onehot_skills :
  str2onehot ["skills"] = Ok [[0; 0; 1; 0; 0]%Q].
Proof. vm_compute. reflexivity. Qed.

Example onehot2str_skills :
  onehot2str [[0; 0; 1; 0; 0]%Q] = Ok ["skills"].
Proof. vm_compute. reflexivity. Qed.

Example prob2str_multibucket_two :
  prob2str_multibucket [[0.5; 0.1; 0.3; 0.05; 0.05]%Q; [0.1; 0.1; 0.1; 0.1; 0.1]%Q] [1%nat; 2%nat]
  = Ok (["others, skills"; ""], [1%nat; 2%nat]).
Proof. vm_compute. reflexivity. Qed.

Example calculatePredictionConfidence_two :
  calculatePredictionConfidence [[0.7; 0.1; 0.1; 0.05; 0.05]%Q; [0.3; 0.3; 0.2; 0.1; 0.1]%Q]
  = Ok [PyStr "YES"; PyStr "NO"].
Proof. vm_compute. reflexivity. Qed.

Example calculatePerformanceMetrics_small :
  (r ← calculatePerformanceMetrics ["skills"; "others"; "skills"]
         ["skills"; "skills"; "others"] "testing";
   Ok (num_incorrect r, accuracy r, metrics r !! "skills", cf_matrix r))
  = Ok (2%Z, Fin (1 # 3), Some (mk_scores (1 # 2) (1 # 2) (1 # 2)),
        [[0;0;0;0;0]; [0;0;0;0;0]; [0;0;0;0;0]; [0;0;0;0;1]; [0;0;0;1;1]]%Z).
Proof. vm_compute. reflexivity. Qed.

(** ** Loops, comprehensions and dictionaries *)

Section Loops.
Context {A B : Type}.
Implicit Types (f : A → result B) (xs : list A) (ys : list B).

Lemma py_map_Ok f xs ys :
  py_map f xs = Ok ys ↔ Forall2 (fun x y => f x = Ok y) xs ys.
Proof.
  revert ys. induction xs as [|x xs IH]; intros ys; simpl.
  - split.
    + intros [= <-]. constructor.
    + intros Hnil. inversion Hnil. reflexivity.
  - destruct (f x) as [y|e] eqn:Hfx; simpl.
    + destruct (py_map f xs) as [ys'|e] eqn:Hxs; simpl.
      * split.
        -- intros [= <-]. constructor; [assumption | by apply IH].
        -- intros Hcons. inversion Hcons as [|? y' ? ys'' Hy Hrest]; subst.
           rewrite Hfx in Hy. injection Hy as <-.
           apply IH in Hrest. by injection Hrest as <-.
      * split; [discriminate |].
        intros Hcons. inversion Hcons as [|? ? ? ys'' _ Hrest]; subst.
        apply IH in Hrest. discriminate.
    + split; [discriminate |].
      intros Hcons. inversion Hcons as [|? ? ? ? Hy _]; subst.
      rewrite Hfx in Hy. discriminate.
Qed.

Lemma py_map_total f xs :
  Forall (fun x => ∃ y, f x = Ok y) xs → ∃ ys, py_map f xs = Ok ys.
Proof.
  induction 1 as [|x xs [y Hy] _ [ys Hys]]; simpl.
  - by exists [].
  - exists (y :: ys). by rewrite Hy, Hys.
Qed.

Lemma py_map_Raise f xs e :
  py_map f xs = Raise e → Exists (fun x => f x = Raise e) xs.
Proof.
  induction xs as [|x xs IH]; simpl; [discriminate |].
  destruct (f x) as [y|e'] eqn:Hfx; simpl.
  - destruct (py_map f xs) as [ys|e'']; simpl; [discriminate |].
    intros [= ->]. right. by apply IH.
  - intros [= ->]. by left.
Qed.

Lemma py_map_length f xs ys : py_map f xs = Ok ys → length ys = length xs.
Proof. intros H%py_map_Ok. symmetry. by eapply Forall2_length. Qed.

(** A loop whose body appends one computed element per iteration is a
    comprehension. *)
Lemma py_for_append f (body : list B → A → result (list B)) xs acc :
  (∀ acc x, body acc x = (y ← f x; Ok (acc ++ [y]))) →
  py_for xs body acc = (ys ← py_map f xs; Ok (acc ++ ys)).
Proof.
  intros Hbody. revert acc. induction xs as [|x xs IH]; intros acc; simpl.
  - by rewrite app_nil_r.
  - rewrite Hbody. destruct (f x) as [y|e]; simpl; [| reflexivity].
    rewrite IH. destruct (py_map f xs) as [ys|e]; simpl; [| reflexivity].
    by rewrite <- app_assoc.
Qed.
End Loops.

Section Dicts.
Context `{Countable K} {V : Type}.

Lemma py_dict_list_to_map (pairs : list (K * V)) :
  py_dict pairs = list_to_map (reverse pairs).
Proof.
  unfold py_dict.
  assert (Hgen : ∀ (d : gmap K V),
    foldl (fun d kv => <[kv.1 := kv.2]> d) d pairs
    = foldr (fun kv d => <[kv.1 := kv.2]> d) d (reverse pairs)).
  { induction pairs as [|kv pairs IH]; intros d; simpl; [reflexivity |].
    rewrite IH, reverse_cons, foldr_app. reflexivity. }
  rewrite Hgen. reflexivity.
Qed.

(** With distinct keys, the dictionary holds exactly the listed pairs. *)
Lemma py_dict_lookup (pairs : list (K * V)) (k : K) (v : V) :
  NoDup (pairs.*1) → py_dict pairs !! k = Some v ↔ (k, v) ∈ pairs.
Proof.
  intros Hnodup. rewrite py_dict_list_to_map.
  rewrite <- elem_of_list_to_map.
  - by rewrite elem_of_reverse.
  - by rewrite fmap_reverse, reverse_Permutation.
Qed.

Lemma py_dict_lookup_None (pairs : list (K * V)) (k : K) :
  py_dict pairs !! k = None ↔ k ∉ pairs.*1.
Proof.
  rewrite py_dict_list_to_map, <- not_elem_of_list_to_map.
  by rewrite fmap_reverse, elem_of_reverse.
Qed.

Lemma dict_get_Some (d : gmap K V) (k : K) (v : V) :
  d !! k = Some v → dict_get d k = Ok v.
Proof. intros Hv. unfold dict_get. by rewrite Hv. Qed.

Lemma dict_get_Ok (pairs : list (K * V)) (k : K) (v : V) :
  NoDup (pairs.*1) → dict_get (py_dict pairs) k = Ok v ↔ (k, v) ∈ pairs.
Proof.
  intros Hnodup. rewrite <- py_dict_lookup by done. unfold dict_get.
  destruct (py_dict pairs !! k); split; congruence.
Qed.

Lemma dict_get_Raise (pairs : list (K * V)) (k : K) (e : exn) :
  dict_get (py_dict pairs) k = Raise e ↔ e = KeyError ∧ k ∉ pairs.*1.
Proof.
  rewrite <- py_dict_lookup_None. unfold dict_get.
  destruct (py_dict pairs !! k); split; try congruence.
  - intros [_ ?]; congruence.
  - intros [= <-]; done.
  - intros [-> _]; done.
Qed.
End Dicts.

(** ** The label codec *)

Example class_labels_are :
  class_labels = ["others"; "description"; "skills"; "job_title"; "education"].
Proof. reflexivity. Qed.

Lemma ENC_LIST_labels_NoDup : NoDup (ENC_LIST.*1).
Proof. apply (bool_decide_unpack _). vm_compute. reflexivity. Qed.

Lemma ENC_LIST_indices_NoDup : NoDup ((map (fun i => (i.2, i.1)) ENC_LIST).*1).
Proof. apply (bool_decide_unpack _). vm_compute. reflexivity. Qed.

Lemma class_label_index (L : string) :
  L ∈ class_labels ↔ ∃ j, (L, j) ∈ ENC_LIST.
Proof.
  unfold class_labels. rewrite list_elem_of_fmap. split.
  - intros [[L' j] [-> Hin]]. by exists j.
  - intros [j Hin]. by exists (L, j).
Qed.

Lemma index_lt_5 (L : string) (j : nat) : (L, j) ∈ ENC_LIST → (j < 5)%nat.
Proof. intros Hin. unfold ENC_LIST in Hin. elem_cases Hin; lia. Qed.

Lemma index_label (j : nat) : (j < 5)%nat → ∃ L, (L, j) ∈ ENC_LIST.
Proof.
  intros Hj. unfold ENC_LIST.
  destruct j as [|[|[|[|[|j]]]]]; [eexists; by repeat constructor.. | lia].
Qed.

Lemma encode_label_Ok (L : string) (j : nat) :
  (L, j) ∈ ENC_LIST → encode_label L = Ok [onehot j].
Proof. intros Hin. unfold ENC_LIST in Hin. elem_cases Hin; vm_compute; reflexivity. Qed.

Lemma encode_label_Raise (L : string) (e : exn) :
  encode_label L = Raise e ↔ e = KeyError ∧ L ∉ class_labels.
Proof.
  unfold encode_label. split.
  - intros Hraise.
    destruct (dict_get (py_dict ENC_LIST) L) as [j|e'] eqn:Hget.
    + pose proof Hget as Hin.
      apply dict_get_Ok in Hin; [| apply ENC_LIST_labels_NoDup].
      apply encode_label_Ok in Hin. unfold encode_label in Hin.
      rewrite Hget in Hin. congruence.
    + simpl in Hraise. injection Hraise as ->. by apply dict_get_Raise in Hget.
  - intros [-> Hnot].
    assert (Hget : dict_get (py_dict ENC_LIST) L = Raise KeyError)
      by by apply dict_get_Raise.
    by rewrite Hget.
Qed.

Lemma onehot_shape (j : nat) :
  (j < 5)%nat →
  length (onehot j) = 5%nat
  ∧ onehot j !! j = Some 1%Q
  ∧ (∀ i, (i < 5)%nat → i ≠ j → onehot j !! i = Some 0%Q)
  ∧ Qsum (onehot j) = 1%Q.
Proof.
  intros Hj. destruct j as [|[|[|[|[|j]]]]]; [| | | | | lia];
    (split; [reflexivity |]; split; [reflexivity |]; split; [| reflexivity]);
    intros [|[|[|[|[|i]]]]] Hi Hne; solve [reflexivity | lia | congruence].
Qed.

Lemma str2onehot_unfold (Y : list string) :
  str2onehot Y = (new_Y ← py_map encode_label Y; np.vstack new_Y).
Proof.
  unfold str2onehot. rewrite (py_for_append encode_label).
  - destruct (py_map encode_label Y); reflexivity.
  - intros acc y. unfold encode_label.
    destruct (dict_get (py_dict ENC_LIST) y); reflexivity.
Qed.

Lemma class_labels_indices (Y : list string) :
  Forall (fun y => y ∈ class_labels) Y →
  ∃ js, Forall2 (fun y j => (y, j) ∈ ENC_LIST) Y js.
Proof.
  induction 1 as [|y Y [j Hj]%class_label_index _ [js Hjs]].
  - exists []. constructor.
  - exists (j :: js). by constructor.
Qed.

Lemma str2onehot_Ok (Y : list string) (js : list nat) :
  Y ≠ [] → Forall2 (fun y j => (y, j) ∈ ENC_LIST) Y js →
  str2onehot Y = Ok (onehot <$> js).
Proof.
  intros Hne HYjs. rewrite str2onehot_unfold.
  assert (Hmap : py_map encode_label Y = Ok ((fun j => [onehot j]) <$> js)).
  { apply py_map_Ok. apply Forall2_fmap_r.
    eapply Forall2_impl; [exact HYjs |]. intros y j. apply encode_label_Ok. }
  rewrite Hmap. simpl.
  destruct HYjs as [|y j Y js _ _]; [done |]. simpl. f_equal. f_equal.
  clear. induction js as [|j' js IH]; simpl; [reflexivity | by rewrite IH].
Qed.

Lemma onehot2str_unfold (P : list (list Q)) :
  onehot2str P =
  (idx_list ← py_map np.argmax P;
   py_map (dict_get (py_dict (map (fun i => (i.2, i.1)) ENC_LIST))) idx_list).
Proof.
  unfold onehot2str, np.argmax_axis1.
  destruct (py_map np.argmax P) as [idx_list|e]; simpl; [| reflexivity].
  rewrite (py_for_append (dict_get (py_dict (map (fun i => (i.2, i.1)) ENC_LIST))))
    by reflexivity.
  destruct (py_map _ idx_list); reflexivity.
Qed.

Lemma decode_index (L : string) (j : nat) :
  dict_get (py_dict (map (fun i => (i.2, i.1)) ENC_LIST)) j = Ok L ↔ (L, j) ∈ ENC_LIST.
Proof.
  rewrite dict_get_Ok by apply ENC_LIST_indices_NoDup.
  change (map (fun i => (i.2, i.1)) ENC_LIST) with ((fun i : string * nat => (i.2, i.1)) <$> ENC_LIST).
  rewrite list_elem_of_fmap. split.
  - intros [[L' j'] [[= -> ->] Hin]]. exact Hin.
  - intros Hin. by exists (L, j).
Qed.

(** Decoding the encoding of a non-empty sequence of class labels gives the
    sequence back. *)
Lemma onehot2str_str2onehot (Y : list string) :
  Y ≠ [] → Forall (fun y => y ∈ class_labels) Y →
  (M ← str2onehot Y; onehot2str M) = Ok Y.
Proof.
  intros Hne [js HYjs]%class_labels_indices.
  rewrite (str2onehot_Ok Y js) by done. simpl. rewrite onehot2str_unfold.
  assert (Hidx : py_map np.argmax (onehot <$> js) = Ok js).
  { apply py_map_Ok. apply Forall2_fmap_l. apply Forall_Forall2_diag.
    apply Forall2_Forall_r with (1 := HYjs). apply Forall_forall.
    intros y _ j Hj. apply index_lt_5 in Hj.
    destruct j as [|[|[|[|[|j]]]]]; [reflexivity.. | lia]. }
  rewrite Hidx. simpl. apply py_map_Ok. apply Forall2_flip.
  eapply Forall2_impl; [exact HYjs |]. intros y j. apply decode_index.
Qed.

(** ** Comparisons, maxima and argmax *)

Lemma Qltb_lt (x y : Q) : Qltb x y = true ↔ (x < y)%Q.
Proof.
  unfold Qltb. rewrite Qlt_alt. destruct (x ?= y)%Q; split; congruence.
Qed.

Lemma Qltb_ge (x y : Q) : Qltb x y = false ↔ (y <= x)%Q.
Proof.
  split.
  - intros Hf. apply Qnot_lt_le. intros Hlt%Qltb_lt. congruence.
  - intros Hle. destruct (Qltb x y) eqn:Hlt; [| reflexivity].
    apply Qltb_lt in Hlt. lra.
Qed.

Lemma Qleb_le (x y : Q) : Qleb x y = true ↔ (x <= y)%Q.
Proof. apply Qle_bool_iff. Qed.

Lemma argmax_from_first_max (rest pre : list Q) (best_i : nat) (best : Q) :
  pre !! best_i = Some best →
  (∀ j y, pre !! j = Some y → (y <= best)%Q) →
  (∀ j y, (j < best_i)%nat → pre !! j = Some y → (y < best)%Q) →
  first_max (pre ++ rest) (np.argmax_from best_i best (length pre) rest).
Proof.
  revert pre best_i best.
  induction rest as [|x rest IH]; intros pre best_i best Hbest Hle Hlt; simpl.
  - rewrite app_nil_r. exists best. auto.
  - replace (pre ++ x :: rest) with ((pre ++ [x]) ++ rest)
      by (by rewrite <- app_assoc).
    replace (S (length pre)) with (length (pre ++ [x]))
      by (rewrite length_app; simpl; lia).
    destruct (Qltb best x) eqn:Hcmp.
    + apply Qltb_lt in Hcmp. apply IH.
      * by rewrite lookup_app_r, Nat.sub_diag.
      * intros j y Hj. apply lookup_app_Some in Hj as [Hj | [_ Hj]].
        -- apply Hle in Hj. lra.
        -- apply list_lookup_singleton_Some in Hj as [_ ->]. lra.
      * intros j y Hlen Hj. rewrite lookup_app_l in Hj by done.
        apply Hle in Hj. lra.
    + apply Qltb_ge in Hcmp. apply IH.
      * apply lookup_app_l_Some. exact Hbest.
      * intros j y Hj. apply lookup_app_Some in Hj as [Hj | [_ Hj]].
        -- by eapply Hle.
        -- by apply list_lookup_singleton_Some in Hj as [_ ->].
      * intros j y Hji Hj. apply lookup_lt_Some in Hbest.
        rewrite lookup_app_l in Hj by lia. by eapply Hlt.
Qed.

Lemma argmax_first_max (row : list Q) :
  row ≠ [] → ∃ i, np.argmax row = Ok i ∧ first_max row i.
Proof.
  destruct row as [|x row]; [done |]. intros _.
  exists (np.argmax_from 0 x 1 row). split; [reflexivity |].
  apply (argmax_from_first_max row [x] 0 x).
  - reflexivity.
  - intros j y Hj. apply list_lookup_singleton_Some in Hj as [_ ->]. lra.
  - intros j y Hj. lia.
Qed.

Lemma first_max_lt_length (row : list Q) (i : nat) :
  first_max row i → (i < length row)%nat.
Proof. intros (x & Hx & _). by eapply lookup_lt_Some. Qed.


Lemma py_max_from_spec (l : list Q) (m : Q) :
  (py_max_from m l = m ∨ py_max_from m l ∈ l)
  ∧ (m <= py_max_from m l)%Q
  ∧ Forall (fun x => (x <= py_max_from m l)%Q) l.
Proof.
  revert m. induction l as [|x l IH]; intros m; simpl.
  - split; [by left |]. split; [lra | constructor].
  - destruct (IH (if Qltb m x then x else m)) as (Hin & Hge & Hall).
    destruct (Qltb m x) eqn:Hcmp.
    + apply Qltb_lt in Hcmp. split; [| split].
      * right. destruct Hin as [-> | Hin]; [left | by right].
      * lra.
      * constructor; [lra | exact Hall].
    + apply Qltb_ge in Hcmp. split; [| split].
      * destruct Hin as [-> | Hin]; [by left | right; by right].
      * exact Hge.
      * constructor; [lra | exact Hall].
Qed.

(** [max(row)] is an element of the row that no element exceeds. *)
Lemma py_max_spec (row : list Q) :
  row ≠ [] →
  ∃ m, py_max row = Ok m ∧ m ∈ row ∧ Forall (fun x => (x <= m)%Q) row.
Proof.
  destruct row as [|x row]; [done |]. intros _.
  exists (py_max_from x row). split; [reflexivity |].
  destruct (py_max_from_spec row x) as (Hin & Hge & Hall).
  split.
  - destruct Hin as [-> | Hin]; [left | by right].
  - by constructor.
Qed.

(** ** Claims about the label codec *)

(** C1. Round trip: for every class label [L] of the fixed set, encoding
    [[L]] with [str2onehot] succeeds, decoding the result with [onehot2str]
    succeeds, and the first decoded label is [L]. *)
Theorem decode_encode_label (L : string) :
  L ∈ class_labels →
  ∃ M labels,
    str2onehot [L] = Ok M ∧ onehot2str M = Ok labels ∧ labels !! 0%nat = Some L.
Proof.
  intros HL.
  assert (Hrt : (M ← str2onehot [L]; onehot2str M) = Ok [L]).
  { apply onehot2str_str2onehot; [done | by constructor]. }
  destruct (str2onehot [L]) as [M|e]; [| discriminate].
  exists M, [L]. auto.
Qed.

Lemma decode_encode_label_witness :
  ∃ M labels,
    str2onehot ["job_title"] = Ok M ∧ onehot2str M = Ok labels
    ∧ labels !! 0%nat = Some "job_title".
Proof.
  apply (decode_encode_label "job_title").
  apply (bool_decide_unpack _). vm_compute. reflexivity.
Defined.

(** C5, as the source has it. Encoding fails with [KeyError] (the spec's
    UnknownLabelError) exactly when some label of the input is outside the
    fixed set of class labels; a non-empty input entirely within the set is
    encoded; the empty input is refused by [np.vstack] with [ValueError]. *)
Theorem str2onehot_errors (Y : list string) :
  (str2onehot Y = Raise KeyError ↔ Exists (fun y => y ∉ class_labels) Y)
  ∧ (Y ≠ [] → Forall (fun y => y ∈ class_labels) Y → ∃ M, str2onehot Y = Ok M)
  ∧ (Y = [] → str2onehot Y = Raise ValueError).
Proof.
  split; [| split].
  - rewrite str2onehot_unfold. split.
    + destruct (py_map encode_label Y) as [new_Y|e] eqn:Hmap; simpl.
      * destruct new_Y; discriminate.
      * intros [= ->]. apply py_map_Raise in Hmap.
        eapply Exists_impl; [exact Hmap |]. simpl.
        by intros y [_ Hy]%encode_label_Raise.
    + intros Hex. destruct (py_map encode_label Y) as [new_Y|e] eqn:Hmap; simpl.
      * apply py_map_Ok in Hmap. exfalso.
        induction Hmap as [|y vec Y new_Y Hy _ IH].
        -- by apply Exists_nil in Hex.
        -- apply Exists_cons in Hex as [Hex | Hex]; [| by apply IH].
           assert (Hr : encode_label y = Raise KeyError)
             by by apply encode_label_Raise.
           congruence.
      * apply py_map_Raise in Hmap. apply Exists_exists in Hmap as (y & _ & Hy).
        apply encode_label_Raise in Hy as [-> _]. reflexivity.
  - intros Hne [js Hjs]%class_labels_indices.
    exists (onehot <$> js). by apply str2onehot_Ok.
  - intros ->. reflexivity.
Qed.

Lemma str2onehot_errors_witness :
  (str2onehot ["skills"; "salary"] = Raise KeyError
   ↔ Exists (fun y => y ∉ class_labels) ["skills"; "salary"])
  ∧ (["skills"; "others"] ≠ [] →
     Forall (fun y => y ∈ class_labels) ["skills"; "others"] →
     ∃ M, str2onehot ["skills"; "others"] = Ok M)
  ∧ (([] : list string) = [] → str2onehot [] = Raise ValueError).
Proof.
  split; [| split].
  - apply (str2onehot_errors ["skills"; "salary"]).
  - apply (str2onehot_errors ["skills"; "others"]).
  - apply (str2onehot_errors []).
Defined.

(** C5, as the spec states it, fails on the empty input: every label of
    the empty sequence is in the fixed set, yet the encoding does not
    succeed. *)
Lemma str2onehot_empty_refused :
  Forall (fun y => y ∈ class_labels) ([] : list string)
  ∧ str2onehot [] = Raise ValueError
  ∧ ¬ (Forall (fun y => y ∈ class_labels) ([] : list string) →
       ∃ M, str2onehot [] = Ok M).
Proof.
  split; [constructor |]. split; [reflexivity |].
  intros Hclaim. destruct (Hclaim (Forall_nil_2 _)) as [M HM]. discriminate HM.
Qed.

(** C6. For a non-empty sequence [Y] of class labels (in particular [[L]])
    [str2onehot] returns a matrix with one row per label; each row has 5
    columns, holds 1.0 at the index the fixed mapping gives its label and
    0.0 everywhere else, and sums to exactly 1.0. *)
Theorem str2onehot_rows (Y : list string) :
  Y ≠ [] → Forall (fun y => y ∈ class_labels) Y →
  ∃ M, str2onehot Y = Ok M
       ∧ length M = length Y
       ∧ ∀ k L, Y !! k = Some L →
           ∃ row j, M !! k = Some row
                    ∧ (L, j) ∈ ENC_LIST
                    ∧ length row = 5%nat
                    ∧ row !! j = Some 1%Q
                    ∧ (∀ i, (i < 5)%nat → i ≠ j → row !! i = Some 0%Q)
                    ∧ Qsum row = 1%Q.
Proof.
  intros Hne [js Hjs]%class_labels_indices.
  exists (onehot <$> js). split; [by apply str2onehot_Ok |].
  split; [rewrite length_fmap; symmetry; by eapply Forall2_length |].
  intros k L Hk.
  destruct (Forall2_lookup_l _ _ _ _ _ Hjs Hk) as (j & Hj & HLj).
  exists (onehot j), j. split; [by rewrite list_lookup_fmap, Hj |].
  split; [exact HLj |]. apply onehot_shape. by eapply index_lt_5.
Qed.

Lemma str2onehot_rows_witness :
  ∃ M, str2onehot ["education"] = Ok M
       ∧ length M = length ["education"]
       ∧ ∀ k L, ["education"] !! k = Some L →
           ∃ row j, M !! k = Some row
                    ∧ (L, j) ∈ ENC_LIST
                    ∧ length row = 5%nat
                    ∧ row !! j = Some 1%Q
                    ∧ (∀ i, (i < 5)%nat → i ≠ j → row !! i = Some 0%Q)
                    ∧ Qsum row = 1%Q.
Proof.
  apply (str2onehot_rows ["education"]).
  - discriminate.
  - apply (bool_decide_unpack _). vm_compute. reflexivity.
Defined.

(** C7. For every probability matrix [P] (rows of 5 numbers) [onehot2str]
    returns one label per row, and the label of a row is the one the fixed
    mapping assigns to the index of the first occurrence of the row's
    largest value: the maximum, with ties broken by the lowest index. *)
Theorem onehot2str_argmax (P : list (list Q)) :
  Forall (fun row => length row = 5%nat) P →
  ∃ labels, onehot2str P = Ok labels
            ∧ length labels = length P
            ∧ ∀ k row, P !! k = Some row →
                ∃ L i, labels !! k = Some L
                       ∧ (L, i) ∈ ENC_LIST
                       ∧ first_max row i.
Proof.
  intros Hshape. rewrite onehot2str_unfold.
  assert (Hidx : ∃ idx_list,
    Forall2 (fun row i => np.argmax row = Ok i ∧ first_max row i ∧ (i < 5)%nat)
            P idx_list).
  { induction Hshape as [|row P Hrow _ [idx_list IH]].
    - exists []. constructor.
    - destruct (argmax_first_max row) as (i & Hi & Hmax).
      { intros ->. discriminate Hrow. }
      exists (i :: idx_list). constructor; [| exact IH].
      split; [exact Hi |]. split; [exact Hmax |].
      rewrite <- Hrow. by apply first_max_lt_length. }
  destruct Hidx as [idx_list Hidx].
  assert (Hmap : py_map np.argmax P = Ok idx_list).
  { apply py_map_Ok. eapply Forall2_impl; [exact Hidx |]. by intros ? ? [? _]. }
  rewrite Hmap. simpl.
  assert (Hlab : ∃ labels,
    Forall2 (fun i L => (L, i) ∈ ENC_LIST) idx_list labels).
  { clear Hmap. induction Hidx as [|row i P' idx_list Hhead Htail IH].
    - exists []. constructor.
    - destruct Hhead as (_ & _ & Hi). apply Forall_cons in Hshape as [_ Hshape].
      destruct (IH Hshape) as [labels Hlabels].
      destruct (index_label i Hi) as [L HL]. exists (L :: labels). by constructor. }
  destruct Hlab as [labels Hlab]. exists labels. split; [| split].
  - apply py_map_Ok. eapply Forall2_impl; [exact Hlab |].
    intros i L. apply decode_index.
  - rewrite <- (Forall2_length _ _ _ Hlab). symmetry. by eapply Forall2_length.
  - intros k row Hk.
    destruct (Forall2_lookup_l _ _ _ _ _ Hidx Hk) as (i & Hi & _ & Hmax & _).
    destruct (Forall2_lookup_l _ _ _ _ _ Hlab Hi) as (L & HL & HLi).
    by exists L, i.
Qed.

Lemma onehot2str_argmax_witness :
  ∃ labels, onehot2str [[0.1; 0.4; 0.4; 0.05; 0.05]%Q] = Ok labels
            ∧ length labels = length [[0.1; 0.4; 0.4; 0.05; 0.05]%Q]
            ∧ ∀ k row, [[0.1; 0.4; 0.4; 0.05; 0.05]%Q] !! k = Some row →
                ∃ L i, labels !! k = Some L
                       ∧ (L, i) ∈ ENC_LIST
                       ∧ first_max row i.
Proof.
  apply (onehot2str_argmax [[0.1; 0.4; 0.4; 0.05; 0.05]%Q]).
  repeat constructor.
Defined.

Example onehot2str_tie :
  onehot2str [[0.1; 0.4; 0.4; 0.05; 0.05]%Q] = Ok ["description"].
Proof. vm_compute. reflexivity. Qed.

(** ** Strings *)

Section Strings.
#[local] Arguments String.append !_ _ /.
Implicit Types (a b c s : string).

Lemma append_assoc a b c : (a +:+ b) +:+ c = a +:+ (b +:+ c).
Proof. induction a as [|x a IH]; simpl; [reflexivity | by rewrite IH]. Qed.

Lemma append_nil_l a : "" +:+ a = a.
Proof. reflexivity. Qed.

Lemma append_nil_r a : a +:+ "" = a.
Proof. induction a as [|x a IH]; simpl; [reflexivity | by rewrite IH]. Qed.

Lemma length_append a b :
  String.length (a +:+ b) = (String.length a + String.length b)%nat.
Proof. induction a as [|x a IH]; simpl; [reflexivity | by rewrite IH]. Qed.

Lemma substring_append a b (k : nat) :
  String.substring 0 (String.length a + k) (a +:+ b) = a +:+ String.substring 0 k b.
Proof. induction a as [|x a IH]; simpl; [reflexivity | by rewrite IH]. Qed.

(** Dropping the last [k] characters leaves a prefix alone when the rest
    has [k] characters to lose. *)
Lemma py_drop_last_append (k : nat) a b :
  (k ≤ String.length b)%nat →
  py_drop_last k (a +:+ b) = a +:+ py_drop_last k b.
Proof.
  intros Hk. unfold py_drop_last. rewrite length_append.
  replace (String.length a + String.length b - k)%nat
    with (String.length a + (String.length b - k))%nat by lia.
  apply substring_append.
Qed.

Lemma py_drop_last_all a : py_drop_last (String.length a) a = "".
Proof.
  unfold py_drop_last. rewrite Nat.sub_diag. by destruct a.
Qed.
End Strings.

Lemma with_trailing_length (n : string) (names : list string) :
  (2 ≤ String.length (with_trailing (n :: names)))%nat.
Proof.
  simpl. rewrite !length_append. simpl. lia.
Qed.

(** Cutting the last separator off gives the labels joined by [", "]. *)
Lemma py_drop_last_with_trailing (names : list string) :
  py_drop_last 2 (with_trailing names) = String.concat ", " names.
Proof.
  induction names as [|n names IH]; [reflexivity |].
  change (with_trailing (n :: names)) with (n +:+ (", " +:+ with_trailing names)).
  rewrite py_drop_last_append by (rewrite length_append; simpl; lia).
  destruct names as [|m names].
  - change (py_drop_last 2 (", " +:+ with_trailing [])) with "".
    by rewrite append_nil_r.
  - rewrite py_drop_last_append by apply with_trailing_length.
    rewrite IH. reflexivity.
Qed.

(** ** The multi-bucket decoder *)

Lemma inverse_ENC_DICT : py_dict (map (fun i => (i.2, i.1)) ENC_LIST) = ENC_DICT.
Proof. vm_compute. reflexivity. Qed.

Lemma ENC_DICT_lookup (i : nat) :
  (i < 5)%nat → ∃ L, ENC_DICT !! i = Some L ∧ dict_get ENC_DICT i = Ok L.
Proof.
  intros Hi. destruct i as [|[|[|[|[|i]]]]]; [| | | | | lia];
    eexists; split; vm_compute; reflexivity.
Qed.

Lemma picked_labels (threshold : Q) (prob : list Q) :
  length prob = 5%nat → picked threshold 0 prob = labels_at_or_above threshold prob.
Proof.
  intros Hlen.
  destruct prob as [|p0 [|p1 [|p2 [|p3 [|p4 [|]]]]]]; try discriminate Hlen.
  unfold labels_at_or_above, picked. simpl.
  destruct (Qleb threshold p0), (Qleb threshold p1), (Qleb threshold p2),
    (Qleb threshold p3), (Qleb threshold p4); vm_compute; reflexivity.
Qed.

Section MultiBucket.
Variable threshold : Q.

Lemma inner_loop (prob : list Q) (i : nat) (classes : string) :
  (i + length prob ≤ 5)%nat →
  py_for (py_enumerate i prob) (bucket_step threshold) classes
  = Ok (classes +:+ with_trailing (picked threshold i prob)).
Proof.
  revert i classes. induction prob as [|p prob IH]; intros i classes Hi; simpl.
  - by rewrite append_nil_r.
  - simpl in Hi. destruct (Qleb threshold p).
    + destruct (ENC_DICT_lookup i) as (L & HL & Hget); [lia |].
      rewrite Hget, HL. simpl. rewrite IH by lia.
      by rewrite !append_assoc.
    + simpl. apply IH. lia.
Qed.

Lemma outer_loop {T : Type} (probs : list (list Q)) (sens : list T)
    (cats : list string) (final_sens : list T) :
  Forall (fun prob => length prob = 5%nat) probs →
  py_for (zip probs sens)
    (fun '(cats, final_sens) '(prob, sen) =>
       classes ← py_for (py_enumerate 0 prob) (bucket_step threshold) "";
       Ok (cats ++ [py_drop_last 2 classes], final_sens ++ [sen]))
    (cats, final_sens)
  = Ok (cats ++ (bucket_string threshold <$> take (length sens) probs),
        final_sens ++ take (length probs) sens).
Proof.
  intros Hshape. revert sens cats final_sens.
  induction Hshape as [|prob probs Hprob _ IH]; intros sens cats final_sens.
  - simpl. rewrite take_nil. simpl. by rewrite !app_nil_r.
  - destruct sens as [|sen sens]; simpl.
    + by rewrite !app_nil_r.
    + rewrite inner_loop by (rewrite Hprob; lia). simpl.
      rewrite append_nil_l, IH, picked_labels, py_drop_last_with_trailing by done.
      unfold bucket_string. by rewrite <- !app_assoc.
Qed.
End MultiBucket.

Lemma prob2str_multibucket_at_unfold {T : Type} (threshold : Q)
    (probs : list (list Q)) (sens : list T) :
  Forall (fun prob => length prob = 5%nat) probs →
  prob2str_multibucket_at threshold probs sens
  = Ok (bucket_string threshold <$> take (length sens) probs,
        take (length probs) sens).
Proof.
  intros Hshape. unfold prob2str_multibucket_at. rewrite inverse_ENC_DICT.
  apply (outer_loop threshold probs sens [] [] Hshape).
Qed.

Lemma ENC_DICT_label (L : string) (i : nat) :
  ENC_DICT !! i = Some L ↔ (L, i) ∈ ENC_LIST.
Proof.
  rewrite <- decode_index, inverse_ENC_DICT. unfold dict_get.
  destruct (ENC_DICT !! i); split; congruence.
Qed.

Lemma elem_of_labels_at_or_above (threshold : Q) (prob : list Q) (L : string) :
  L ∈ labels_at_or_above threshold prob
  ↔ ∃ i p, (L, i) ∈ ENC_LIST ∧ prob !! i = Some p ∧ (threshold <= p)%Q.
Proof.
  unfold labels_at_or_above. rewrite list_elem_of_omap. split.
  - intros (i & _ & Hi). destruct (prob !! i) as [p|] eqn:Hp; [| discriminate].
    destruct (Qleb threshold p) eqn:Hcmp; [| discriminate].
    exists i, p. split; [by apply ENC_DICT_label |]. split; [done |].
    by apply Qleb_le.
  - intros (i & p & HL & Hp & Hcmp). exists i. split.
    + apply elem_of_seq. apply index_lt_5 in HL. lia.
    + apply Qleb_le in Hcmp. rewrite Hp, Hcmp. by apply ENC_DICT_label.
Qed.

(** C2. For every probability matrix (rows of 5 numbers, each paired with
    its sentence) and every threshold, the multi-bucket decoder returns,
    for each row, the class labels whose probability is at least the
    threshold, in class-index order, joined by [", "] with no trailing
    separator, and the empty string for a row with no such label;
    [prob2str_multibucket] does so at the threshold [PROB_THRESHOLD]
    (0.20). *)
Theorem prob2str_multibucket_rows {T : Type} (threshold : Q)
    (probs : list (list Q)) (sens : list T) :
  Forall (fun prob => length prob = 5%nat) probs →
  (length probs ≤ length sens)%nat →
  prob2str_multibucket_at threshold probs sens
    = Ok (bucket_string threshold <$> probs, take (length probs) sens)
  ∧ prob2str_multibucket probs sens
    = Ok (bucket_string PROB_THRESHOLD <$> probs, take (length probs) sens)
  ∧ ∀ prob,
      bucket_string threshold prob
        = String.concat ", " (labels_at_or_above threshold prob)
      ∧ (∀ L, L ∈ labels_at_or_above threshold prob
              ↔ ∃ i p, (L, i) ∈ ENC_LIST ∧ prob !! i = Some p ∧ (threshold <= p)%Q)
      ∧ (labels_at_or_above threshold prob = [] → bucket_string threshold prob = "").
Proof.
  intros Hshape Hlen. split; [| split].
  - rewrite prob2str_multibucket_at_unfold by done.
    by rewrite take_ge by lia.
  - unfold prob2str_multibucket. rewrite prob2str_multibucket_at_unfold by done.
    by rewrite take_ge by lia.
  - intros prob. split; [reflexivity |]. split.
    + intros L. apply elem_of_labels_at_or_above.
    + unfold bucket_string. by intros ->.
Qed.

Lemma prob2str_multibucket_rows_witness :
  prob2str_multibucket_at 0.5 [[0.5; 0.1; 0.3; 0.05; 0.05]%Q] ["Java and SQL"]
    = Ok (bucket_string 0.5 <$> [[0.5; 0.1; 0.3; 0.05; 0.05]%Q],
          take (length [[0.5; 0.1; 0.3; 0.05; 0.05]%Q]) ["Java and SQL"])
  ∧ prob2str_multibucket [[0.5; 0.1; 0.3; 0.05; 0.05]%Q] ["Java and SQL"]
    = Ok (bucket_string PROB_THRESHOLD <$> [[0.5; 0.1; 0.3; 0.05; 0.05]%Q],
          take (length [[0.5; 0.1; 0.3; 0.05; 0.05]%Q]) ["Java and SQL"])
  ∧ ∀ prob,
      bucket_string 0.5 prob = String.concat ", " (labels_at_or_above 0.5 prob)
      ∧ (∀ L, L ∈ labels_at_or_above 0.5 prob
              ↔ ∃ i p, (L, i) ∈ ENC_LIST ∧ prob !! i = Some p ∧ (0.5 <= p)%Q)
      ∧ (labels_at_or_above 0.5 prob = [] → bucket_string 0.5 prob = "").
Proof.
  apply (prob2str_multibucket_rows 0.5 [[0.5; 0.1; 0.3; 0.05; 0.05]%Q] ["Java and SQL"]).
  - repeat constructor.
  - simpl. lia.
Defined.

Example bucket_string_ordered :
  bucket_string PROB_THRESHOLD [0.25; 0.1; 0.5; 0.3; 0.05]%Q = "others, skills, job_title"
  ∧ bucket_string PROB_THRESHOLD [0.1; 0.1; 0.1; 0.1; 0.1]%Q = "".
Proof. split; vm_compute; reflexivity. Qed.

(** ** The confidence annotator *)

Lemma calculatePredictionConfidence_unfold (pred : list (list Q)) :
  calculatePredictionConfidence pred = py_map confidence_flag pred.
Proof.
  unfold calculatePredictionConfidence. rewrite (py_for_append confidence_flag).
  - destruct (py_map confidence_flag pred); reflexivity.
  - intros acc probs. unfold confidence_flag.
    destruct (py_max probs) as [m|e]; simpl; [| reflexivity].
    destruct (Qltb CONFIDENCE_THRESHOLD m); reflexivity.
Qed.

Lemma confidence_flag_spec (row : list Q) :
  row ≠ [] →
  (max_exceeds CONFIDENCE_THRESHOLD row ∧ confidence_flag row = Ok (PyStr "YES"))
  ∨ (¬ max_exceeds CONFIDENCE_THRESHOLD row ∧ confidence_flag row = Ok (PyStr "NO")).
Proof.
  intros Hne. destruct (py_max_spec row Hne) as (m & Hm & Hin & Hall).
  unfold confidence_flag. rewrite Hm. simpl.
  destruct (Qltb CONFIDENCE_THRESHOLD m) eqn:Hcmp.
  - left. split; [| reflexivity]. exists m. by apply Qltb_lt in Hcmp.
  - right. split; [| reflexivity]. intros (m' & Hin' & _ & Hlt).
    apply Qltb_ge in Hcmp. rewrite Forall_forall in Hall.
    specialize (Hall m' Hin'). lra.
Qed.

Lemma confidence_flags (pred : list (list Q)) :
  Forall (fun row => length row = 5%nat) pred →
  ∃ flags, calculatePredictionConfidence pred = Ok flags
           ∧ Forall2 (fun row flag => confidence_flag row = Ok flag) pred flags.
Proof.
  intros Hshape. rewrite calculatePredictionConfidence_unfold.
  destruct (py_map_total confidence_flag pred) as [flags Hflags].
  - eapply Forall_impl; [exact Hshape |]. intros row Hrow.
    destruct (confidence_flag_spec row) as [[_ H] | [_ H]]; [| eauto..].
    intros ->. discriminate Hrow.
  - exists flags. split; [exact Hflags | by apply py_map_Ok].
Qed.

(** C3, as the source has it. The confidence annotator returns one flag
    per row; the flag is the string "YES" if and only if the largest
    probability of the row is strictly greater than 0.65, and the string
    "NO" otherwise; [0.7, 0.1, 0.1, 0.05, 0.05] is flagged "YES" and
    [0.3, 0.3, 0.2, 0.1, 0.1] is flagged "NO". *)
Theorem confidence_flag_iff (pred : list (list Q)) :
  Forall (fun row => length row = 5%nat) pred →
  (∃ flags, calculatePredictionConfidence pred = Ok flags
            ∧ length flags = length pred
            ∧ ∀ k row, pred !! k = Some row →
                (flags !! k = Some (PyStr "YES")
                 ↔ max_exceeds CONFIDENCE_THRESHOLD row)
                ∧ (flags !! k = Some (PyStr "NO")
                   ↔ ¬ max_exceeds CONFIDENCE_THRESHOLD row))
  ∧ calculatePredictionConfidence [confident_row] = Ok [PyStr "YES"]
  ∧ calculatePredictionConfidence [unsure_row] = Ok [PyStr "NO"].
Proof.
  intros Hshape. split; [| split; vm_compute; reflexivity].
  destruct (confidence_flags pred Hshape) as (flags & Hflags & Hall).
  exists flags. split; [exact Hflags |].
  split; [symmetry; by eapply Forall2_length |].
  intros k row Hk.
  destruct (Forall2_lookup_l _ _ _ _ _ Hall Hk) as (flag & Hflag & Hrow).
  rewrite Hflag.
  destruct (confidence_flag_spec row) as [[Hmax H] | [Hmax H]].
  - intros ->. rewrite Forall_forall in Hshape.
    apply list_elem_of_lookup_2 in Hk. by apply Hshape in Hk.
  - rewrite H in Hrow. injection Hrow as <-. split; split; try done.
  - rewrite H in Hrow. injection Hrow as <-. split; split; try done.
Qed.

Lemma confidence_flag_iff_witness :
  (∃ flags, calculatePredictionConfidence [confident_row; unsure_row] = Ok flags
            ∧ length flags = length [confident_row; unsure_row]
            ∧ ∀ k row, [confident_row; unsure_row] !! k = Some row →
                (flags !! k = Some (PyStr "YES")
                 ↔ max_exceeds CONFIDENCE_THRESHOLD row)
                ∧ (flags !! k = Some (PyStr "NO")
                   ↔ ¬ max_exceeds CONFIDENCE_THRESHOLD row))
  ∧ calculatePredictionConfidence [confident_row] = Ok [PyStr "YES"]
  ∧ calculatePredictionConfidence [unsure_row] = Ok [PyStr "NO"].
Proof.
  apply (confidence_flag_iff [confident_row; unsure_row]).
  repeat constructor.
Defined.

(** C3, as the spec states it, fails: the flag of the row
    [0.7, 0.1, 0.1, 0.05, 0.05] is the string "YES", not the boolean
    [True], and no call returns a sequence of booleans for it. *)
Lemma confidence_flag_not_bool :
  calculatePredictionConfidence [confident_row] = Ok [PyStr "YES"]
  ∧ calculatePredictionConfidence [confident_row] ≠ Ok [PyBool true]
  ∧ ¬ ∃ flags : list bool,
        calculatePredictionConfidence [confident_row] = Ok (PyBool <$> flags).
Proof.
  assert (H : calculatePredictionConfidence [confident_row] = Ok [PyStr "YES"])
    by (vm_compute; reflexivity).
  rewrite H. split; [reflexivity |]. split; [discriminate |].
  intros [[|[] [|]] Hflags]; discriminate Hflags.
Qed.

(** C10. For every probability matrix the confidence annotator returns a
    list as long as its input, whose elements are the strings "YES" and
    "NO", never booleans: "YES" for a row whose largest probability
    strictly exceeds 0.65, "NO" for every other row. *)
Theorem confidence_YES_NO (pred : list (list Q)) :
  Forall (fun row => length row = 5%nat) pred →
  ∃ flags, calculatePredictionConfidence pred = Ok flags
           ∧ length flags = length pred
           ∧ Forall (fun flag => flag = PyStr "YES" ∨ flag = PyStr "NO") flags
           ∧ Forall (fun flag => ∀ b, flag ≠ PyBool b) flags
           ∧ Forall2 (fun row flag =>
                        (max_exceeds CONFIDENCE_THRESHOLD row ∧ flag = PyStr "YES")
                        ∨ (¬ max_exceeds CONFIDENCE_THRESHOLD row ∧ flag = PyStr "NO"))
                     pred flags.
Proof.
  intros Hshape.
  destruct (confidence_flags pred Hshape) as (flags & Hflags & Hall).
  assert (Hrows : Forall2 (fun row flag =>
      (max_exceeds CONFIDENCE_THRESHOLD row ∧ flag = PyStr "YES")
      ∨ (¬ max_exceeds CONFIDENCE_THRESHOLD row ∧ flag = PyStr "NO")) pred flags).
  { clear Hflags. induction Hall as [|row flag pred flags Hrow _ IH].
    - constructor.
    - apply Forall_cons in Hshape as [Hlen Hshape].
      constructor; [| by apply IH].
      destruct (confidence_flag_spec row) as [[Hmax H] | [Hmax H]].
      + intros ->. discriminate Hlen.
      + left. split; [done | congruence].
      + right. split; [done | congruence]. }
  exists flags. split; [exact Hflags |].
  split; [symmetry; by eapply Forall2_length |].
  split; [| split; [| exact Hrows]].
  - eapply Forall2_Forall_r; [exact Hrows |]. apply Forall_forall.
    intros row _ flag [[_ ->] | [_ ->]]; auto.
  - eapply Forall2_Forall_r; [exact Hrows |]. apply Forall_forall.
    intros row _ flag [[_ ->] | [_ ->]] b; discriminate.
Qed.

Lemma confidence_YES_NO_witness :
  ∃ flags, calculatePredictionConfidence [unsure_row; confident_row] = Ok flags
           ∧ length flags = length [unsure_row; confident_row]
           ∧ Forall (fun flag => flag = PyStr "YES" ∨ flag = PyStr "NO") flags
           ∧ Forall (fun flag => ∀ b, flag ≠ PyBool b) flags
           ∧ Forall2 (fun row flag =>
                        (max_exceeds CONFIDENCE_THRESHOLD row ∧ flag = PyStr "YES")
                        ∨ (¬ max_exceeds CONFIDENCE_THRESHOLD row ∧ flag = PyStr "NO"))
                     [unsure_row; confident_row] flags.
Proof.
  apply (confidence_YES_NO [unsure_row; confident_row]).
  repeat constructor.
Defined.

(** ** The metrics engine *)

Lemma check_consistent_length_Ok {A B : Type} (a : list A) (b : list B) :
  length a = length b → sk.check_consistent_length a b = Ok ().
Proof. intros Hlen. unfold sk.check_consistent_length. by rewrite decide_True. Qed.

Lemma prf_per_label_Ok (Y_true Y_pred labels : list string) :
  length Y_true = length Y_pred →
  sk.prf_per_label Y_true Y_pred labels
  = Ok ((fun c => sk.prf_of_sums (sk.bincount (sk.tp_bins Y_true Y_pred) c)
                                 (sk.bincount Y_pred c) (sk.bincount Y_true c))
          <$> labels).
Proof.
  intros Hlen. unfold sk.prf_per_label.
  by rewrite check_consistent_length_Ok.
Qed.

Lemma list_get_Some {A : Type} (l : list A) (i : nat) (x : A) :
  l !! i = Some x → list_get l i = Ok x.
Proof. intros Hx. unfold list_get. by rewrite Hx. Qed.

(** The dictionary built by the loop of [precision_recall_f1]. *)
Lemma metrics_loop (g : string → Q * Q * Q) (rest pre : list string)
    (metrics : gmap string scores) :
  py_for (seq (length pre) (length rest))
    (fun (metrics : gmap string scores) i =>
       c ← list_get (pre ++ rest) i;
       p ← list_get ((g <$> pre ++ rest).*1.*1) i;
       r ← list_get ((g <$> pre ++ rest).*1.*2) i;
       f ← list_get ((g <$> pre ++ rest).*2) i;
       Ok (<[c := mk_scores p r f]> metrics))
    metrics
  = Ok (foldl (fun m c => <[c := mk_scores (g c).1.1 (g c).1.2 (g c).2]> m) metrics rest).
Proof.
  revert pre metrics. induction rest as [|c rest IH]; intros pre metrics.
  - reflexivity.
  - assert (Hc : (pre ++ c :: rest) !! length pre = Some c)
      by (by rewrite lookup_app_r, Nat.sub_diag).
    assert (H1 : (g <$> pre ++ c :: rest).*1.*1 !! length pre = Some (g c).1.1)
      by (by rewrite !list_lookup_fmap, Hc).
    assert (H2 : (g <$> pre ++ c :: rest).*1.*2 !! length pre = Some (g c).1.2)
      by (by rewrite !list_lookup_fmap, Hc).
    assert (H3 : (g <$> pre ++ c :: rest).*2 !! length pre = Some (g c).2)
      by (by rewrite !list_lookup_fmap, Hc).
    cbn [py_for seq length].
    rewrite (list_get_Some _ _ _ Hc), (list_get_Some _ _ _ H1),
      (list_get_Some _ _ _ H2), (list_get_Some _ _ _ H3).
    cbn [mbind result_bind foldl].
    specialize (IH (pre ++ [c])). rewrite length_app in IH. simpl in IH.
    rewrite Nat.add_1_r, <- app_assoc in IH. simpl in IH. apply IH.
Qed.

Lemma foldl_insert_lookup {V : Type} (g : string → V) (cl : list string)
    (m : gmap string V) (c : string) :
  foldl (fun m c => <[c := g c]> m) m cl !! c
  = if decide (c ∈ cl) then Some (g c) else m !! c.
Proof.
  revert m. induction cl as [|c' cl IH]; intros m.
  - destruct (decide (c ∈ [])) as [Hin | _]; [by apply elem_of_nil in Hin | done].
  - cbn [foldl]. rewrite IH.
    destruct (decide (c ∈ cl)) as [Hin | Hnin], (decide (c ∈ c' :: cl)) as [Hin' | Hnin'];
      try reflexivity.
    + exfalso. apply Hnin'. by right.
    + apply elem_of_cons in Hin' as [-> | Hin']; [| done].
      by rewrite lookup_insert_eq.
    + rewrite lookup_insert_ne; [reflexivity |].
      intros ->. apply Hnin'. by left.
Qed.

Lemma precision_recall_f1_Ok (Y_pred Y_test cl : list string) :
  length Y_pred = length Y_test →
  ∃ metrics, precision_recall_f1 Y_pred Y_test cl = Ok metrics
             ∧ ∀ c, metrics !! c
                    = if decide (c ∈ cl) then Some (class_scores Y_test Y_pred c)
                      else None.
Proof.
  intros Hlen. unfold precision_recall_f1, sk.precision_score_per_class,
    sk.recall_score_per_class, sk.f1_score_per_class.
  rewrite prf_per_label_Ok by done. simpl.
  pose proof (metrics_loop
    (fun c => sk.prf_of_sums (sk.bincount (sk.tp_bins Y_test Y_pred) c)
                             (sk.bincount Y_pred c) (sk.bincount Y_test c))
    cl [] ∅) as Hloop.
  simpl in Hloop. rewrite Hloop. eexists. split; [reflexivity |].
  intros c.
  rewrite (foldl_insert_lookup (fun c => mk_scores _ _ _)).
  rewrite lookup_empty. destruct (decide (c ∈ cl)); [| reflexivity].
  reflexivity.
Qed.

Lemma bincount_absent (Y : list string) (c : string) :
  c ∉ Y → sk.bincount Y c = 0%Z.
Proof.
  intros Hnin. unfold sk.bincount.
  rewrite (proj1 (count_occ_not_In String.eq_dec Y c)); [reflexivity |].
  by rewrite <- list_elem_of_In.
Qed.

(** A right prediction of class [c] is both an actual and a predicted [c]. *)
Lemma elem_of_tp_bins (Y_true Y_pred : list string) (c : string) :
  c ∈ sk.tp_bins Y_true Y_pred → c ∈ Y_true ∧ c ∈ Y_pred.
Proof.
  unfold sk.tp_bins. rewrite list_elem_of_fmap.
  intros ([t p] & -> & [Heq Hin]%list_elem_of_filter). simpl in *. subst p.
  split; [by eapply elem_of_zip_l | by eapply elem_of_zip_r].
Qed.

Lemma prf_divide_0 (d : Z) : sk.prf_divide 0 d = 0%Q.
Proof.
  unfold sk.prf_divide. destruct (decide (d = 0%Z)); [reflexivity |].
  change 0%Q with (Qred 0). apply Qred_complete.
  unfold Qdiv. apply Qmult_0_l.
Qed.

Lemma class_scores_degenerate (Y_true Y_pred : list string) (c : string) :
  c ∉ Y_pred ∨ c ∉ Y_true → class_scores Y_true Y_pred c = mk_scores 0 0 0.
Proof.
  intros Hnone.
  assert (Htp : sk.bincount (sk.tp_bins Y_true Y_pred) c = 0%Z).
  { apply bincount_absent. intros [? ?]%elem_of_tp_bins. by destruct Hnone. }
  unfold class_scores, sk.prf_of_sums. rewrite Htp, !prf_divide_0.
  reflexivity.
Qed.

(** ** Claims about the metrics engine *)



Example precision_recall_f1_rare_class :
  (metrics ← precision_recall_f1 ["skills"; "others"] ["skills"; "skills"] classlist;
   Ok (metrics !! "skills", metrics !! "others", metrics !! "education"))
  = Ok (Some (mk_scores 1 (1 # 2) (2 # 3)), Some (mk_scores 0 0 0),
        Some (mk_scores 0 0 0)).
Proof. vm_compute. reflexivity. Qed.

Lemma accuracy_count_Ok (Y_true Y_pred : list string) :
  length Y_true = length Y_pred →
  sk.accuracy_count Y_true Y_pred = Ok (Z.of_nat (length (sk.tp_bins Y_true Y_pred))).
Proof.
  intros Hlen. unfold sk.accuracy_count. by rewrite check_consistent_length_Ok.
Qed.

Lemma accuracy_score_Ok (Y_true Y_pred : list string) :
  length Y_true = length Y_pred →
  sk.accuracy_score Y_true Y_pred
  = Ok (sk.np_average
          (map (fun tp => if decide (tp.1 = tp.2) then 1%Q else 0%Q)
               (zip Y_true Y_pred))).
Proof.
  intros Hlen. unfold sk.accuracy_score. by rewrite check_consistent_length_Ok.
Qed.

Lemma prf_averaged_Ok (Y_true Y_pred : list string) (avg : average) :
  length Y_true = length Y_pred → ∃ v, sk.prf_averaged Y_true Y_pred avg = Ok v.
Proof.
  intros Hlen. unfold sk.prf_averaged. rewrite check_consistent_length_Ok by done.
  cbn [mbind result_bind]. destruct avg.
  - destruct (sk.prf_of_sums _ _ _) as [[p r] f]. eauto.
  - eauto.
  - destruct (decide _); eauto.
Qed.

Lemma micro_macro_weighted_Ok (Y_pred Y_true : list string) :
  length Y_true = length Y_pred →
  ∃ results, micro_macro_weighted Y_pred Y_true = Ok results
             ∧ Forall (fun key => is_Some (results !! key))
                 [ "micro_precision"; "micro_recall"; "micro_f1";
                   "macro_precision"; "macro_recall"; "macro_f1";
                   "weighted_precision"; "weighted_recall"; "weighted_f1" ].
Proof.
  intros Hlen. unfold micro_macro_weighted, sk.precision_score, sk.recall_score,
    sk.f1_score.
  destruct (prf_averaged_Ok Y_true Y_pred micro Hlen) as [vmicro ->].
  destruct (prf_averaged_Ok Y_true Y_pred macro Hlen) as [vmacro ->].
  destruct (prf_averaged_Ok Y_true Y_pred weighted Hlen) as [vweighted ->].
  cbn [mbind result_bind]. eexists. split; [reflexivity |].
  repeat constructor; vm_compute; eauto.
Qed.

Lemma confusion_matrix_cases (Y_true Y_pred labels : list string) :
  length Y_true = length Y_pred →
  (Exists (fun l => l ∈ Y_true) labels ∧ ∃ cf, sk.confusion_matrix Y_true Y_pred labels = Ok cf)
  ∨ (¬ Exists (fun l => l ∈ Y_true) labels
     ∧ sk.confusion_matrix Y_true Y_pred labels = Raise ValueError).
Proof.
  intros Hlen. unfold sk.confusion_matrix.
  rewrite check_consistent_length_Ok by done. cbn [mbind result_bind].
  destruct (decide (Exists (fun l => l ∈ Y_true) labels)) as [Hex | Hnex].
  - left. split; [exact Hex |].
    assert (Hall : forallb (fun l => negb (bool_decide (l ∈ Y_true))) labels = false).
    { apply not_true_iff_false. intros Hall. rewrite forallb_forall in Hall.
      apply Exists_exists in Hex as (l & Hl & Hin).
      apply list_elem_of_In, Hall, negb_true_iff in Hl.
      by apply bool_decide_eq_false in Hl. }
    rewrite Hall. eauto.
  - right. split; [exact Hnex |].
    assert (Hall : forallb (fun l => negb (bool_decide (l ∈ Y_true))) labels = true).
    { apply forallb_forall. intros l Hl%list_elem_of_In.
      apply negb_true_iff, bool_decide_eq_false. intros Hin.
      apply Hnex, Exists_exists. eauto. }
    by rewrite Hall.
Qed.

(** The two logging loops only read entries that exist. *)
Lemma class_log_loop (metrics : gmap string scores) (rest pre : list string)
    (log0 : list logged) :
  Forall (fun c => is_Some (metrics !! c)) rest →
  ∃ log',
    py_for (seq (length pre) (length rest))
      (fun log i =>
         c ← list_get (pre ++ rest) i;
         m ← dict_get metrics c;
         Ok (log ++ [ LogScore ("Precision " +:+ c +:+ ": ") (precision m);
                      LogScore ("Recall " +:+ c +:+ ": ") (recall m);
                      LogScore ("F1 " +:+ c +:+ ": ") (f1 m) ]))
      log0
    = Ok log'.
Proof.
  intros Hall. revert pre log0.
  induction Hall as [|c rest [m Hm] _ IH]; intros pre log0.
  - simpl. eauto.
  - assert (Hc : (pre ++ c :: rest) !! length pre = Some c)
      by (by rewrite lookup_app_r, Nat.sub_diag).
    cbn [py_for seq length]. rewrite (list_get_Some _ _ _ Hc).
    cbn [mbind result_bind]. rewrite (dict_get_Some _ _ _ Hm).
    cbn [mbind result_bind].
    specialize (IH (pre ++ [c])). rewrite length_app in IH. simpl in IH.
    rewrite Nat.add_1_r, <- app_assoc in IH. apply IH.
Qed.

Lemma averages_log_loop (results : gmap string np_float)
    (lines : list (string * string)) (log0 : list logged) :
  Forall (fun key => is_Some (results !! key)) (lines.*2) →
  ∃ log',
    py_for lines
      (fun log '(msg, key) => v ← dict_get results key; Ok (log ++ [LogFloat msg v]))
      log0
    = Ok log'.
Proof.
  revert log0. induction lines as [|[msg key] lines IH]; intros log0 Hall.
  - simpl. eauto.
  - apply Forall_cons in Hall as [[v Hv] Hall]. simpl in Hv.
    cbn [py_for]. rewrite (dict_get_Some _ _ _ Hv). cbn [mbind result_bind].
    by apply IH.
Qed.

(** What [calculatePerformanceMetrics] does once its assertion holds. *)
Lemma calculatePerformanceMetrics_equal (Y_pred Y_true : list string)
    (dataset_type : string) :
  length Y_pred = length Y_true →
  (Exists (fun c => c ∈ Y_true) classlist
   ∧ ∃ metrics results cf log,
       precision_recall_f1 Y_pred Y_true classlist = Ok metrics
       ∧ calculatePerformanceMetrics Y_pred Y_true dataset_type
         = Ok (mk_report
                 (Z.of_nat (length Y_true)
                  - Z.of_nat (length (sk.tp_bins Y_true Y_pred)))
                 (sk.np_average
                    (map (fun tp => if decide (tp.1 = tp.2) then 1%Q else 0%Q)
                         (zip Y_true Y_pred)))
                 metrics results cf log))
  ∨ (¬ Exists (fun c => c ∈ Y_true) classlist
     ∧ calculatePerformanceMetrics Y_pred Y_true dataset_type = Raise ValueError).
Proof.
  intros Hlen. assert (Hlen' : length Y_true = length Y_pred) by done.
  unfold calculatePerformanceMetrics.
  rewrite bool_decide_eq_true_2 by done. cbn [negb].
  rewrite accuracy_count_Ok, accuracy_score_Ok by done. cbn [mbind result_bind].
  destruct (precision_recall_f1_Ok Y_pred Y_true classlist Hlen)
    as (metrics & Hmetrics & Hlookup).
  rewrite Hmetrics. cbn [mbind result_bind].
  destruct (micro_macro_weighted_Ok Y_pred Y_true Hlen') as (results & -> & Hkeys).
  cbn [mbind result_bind].
  destruct (confusion_matrix_cases Y_true Y_pred classlist Hlen')
    as [[Hex [cf ->]] | [Hnex ->]]; [left | right; done].
  split; [exact Hex |]. cbn [mbind result_bind].
  edestruct (class_log_loop metrics classlist []) as [log1 Hlog1].
  { apply Forall_forall. intros c Hc. rewrite Hlookup, decide_True by done. eauto. }
  cbn [length app] in Hlog1. rewrite Hlog1. cbn [mbind result_bind].
  edestruct (averages_log_loop results) as [log2 Hlog2]; [| rewrite Hlog2].
  { exact Hkeys. }
  cbn [mbind result_bind]. eauto 10.
Qed.

(** *** Counting matches *)

Lemma length_filter_seq_shift (P R : nat → Prop)
    `{!∀ k, Decision (P k)} `{!∀ k, Decision (R k)} (j n : nat) :
  (∀ k, P (S k) ↔ R k) →
  length (filter P (seq (S j) n)) = length (filter R (seq j n)).
Proof.
  intros HPR. revert j. induction n as [|n IH]; intros j; [reflexivity |].
  cbn [seq]. rewrite !filter_cons.
  destruct (decide (P (S j))) as [HP | HP], (decide (R j)) as [HR | HR];
    cbn [length]; rewrite ?IH; try reflexivity.
  - by apply HPR in HP.
  - by apply HPR in HR.
Qed.

Lemma matching_positions_nil (Y_true : list string) :
  matching_positions [] Y_true = 0%nat.
Proof.
  unfold matching_positions.
  assert (Hlt : Forall (fun k => (k < length Y_true)%nat) (seq 0 (length Y_true))).
  { apply Forall_forall. intros k Hk%elem_of_seq. lia. }
  induction Hlt as [|k ks Hk _ IH]; [reflexivity |].
  rewrite filter_cons_False; [exact IH |].
  destruct (lookup_lt_is_Some_2 Y_true k Hk) as [y Hy].
  rewrite Hy. discriminate.
Qed.

Lemma matching_positions_cons (p t : string) (Y_pred Y_true : list string) :
  matching_positions (p :: Y_pred) (t :: Y_true)
  = ((if decide (t = p) then 1 else 0) + matching_positions Y_pred Y_true)%nat.
Proof.
  unfold matching_positions. cbn [length seq]. rewrite filter_cons.
  rewrite <- (length_filter_seq_shift
                (fun k => (p :: Y_pred) !! k = (t :: Y_true) !! k)
                (fun k => Y_pred !! k = Y_true !! k) 0) by done.
  destruct (decide (t = p)) as [-> | Hne].
  - by rewrite decide_True.
  - rewrite decide_False; [reflexivity |]. simpl. congruence.
Qed.

(** The count scikit-learn makes is the number of matching positions. *)
Lemma tp_bins_matching (Y_true Y_pred : list string) :
  length (sk.tp_bins Y_true Y_pred) = matching_positions Y_pred Y_true.
Proof.
  unfold sk.tp_bins. rewrite length_fmap. revert Y_pred.
  induction Y_true as [|t Y_true IH]; intros [|p Y_pred].
  - reflexivity.
  - reflexivity.
  - by rewrite matching_positions_nil.
  - rewrite matching_positions_cons, <- IH. cbn [zip zip_with].
    rewrite filter_cons. cbn [fst snd].
    destruct (decide (t = p)); reflexivity.
Qed.

Lemma matching_positions_same (Y : list string) :
  matching_positions Y Y = length Y.
Proof.
  induction Y as [|y Y IH]; [reflexivity |].
  rewrite matching_positions_cons, IH, decide_True by done. reflexivity.
Qed.

Lemma Qsum_indicator (l : list (string * string)) :
  (Qsum (map (fun tp => if decide (tp.1 = tp.2) then 1 else 0) l)
   == inject_Z (Z.of_nat (length (filter (fun tp => tp.1 = tp.2) l))))%Q.
Proof.
  induction l as [|[t p] l IH]; [reflexivity |].
  cbn [map Qsum foldr]. rewrite filter_cons. fold (Qsum (map (fun tp : string * string => if decide (tp.1 = tp.2) then 1%Q else 0%Q) l)).
  rewrite IH. destruct (decide ((t, p).1 = (t, p).2)); cbn [length].
  - rewrite Nat2Z.inj_succ, <- Z.add_1_l, inject_Z_plus. reflexivity.
  - apply Qplus_0_l.
Qed.

Lemma classlist_class_labels (c : string) : c ∈ classlist ↔ c ∈ class_labels.
Proof.
  split; intros Hc; [unfold classlist in Hc | unfold class_labels, ENC_LIST in Hc];
    simpl in Hc; elem_cases Hc; by repeat constructor.
Qed.

(** C4. [calculatePerformanceMetrics] fails with [AssertionError] (the
    spec's LengthMismatchError) whenever the predicted and the actual
    sequence differ in length, as for 3 predicted and 4 actual labels; it
    returns a report only for sequences of one length, and for those the
    assertion never fails. *)
Theorem calculatePerformanceMetrics_length_mismatch
    (Y_pred Y_true : list string) (dataset_type : string) :
  (length Y_pred ≠ length Y_true →
   calculatePerformanceMetrics Y_pred Y_true dataset_type = Raise AssertionError)
  ∧ (∀ r, calculatePerformanceMetrics Y_pred Y_true dataset_type = Ok r →
          length Y_pred = length Y_true)
  ∧ (length Y_pred = length Y_true →
     calculatePerformanceMetrics Y_pred Y_true dataset_type ≠ Raise AssertionError)
  ∧ (length Y_pred = length Y_true → Exists (fun c => c ∈ Y_true) classlist →
     ∃ r, calculatePerformanceMetrics Y_pred Y_true dataset_type = Ok r)
  ∧ calculatePerformanceMetrics ["skills"; "others"; "skills"]
      ["skills"; "others"; "skills"; "education"] dataset_type
    = Raise AssertionError.
Proof.
  assert (Hne : length Y_pred ≠ length Y_true →
    calculatePerformanceMetrics Y_pred Y_true dataset_type = Raise AssertionError).
  { intros Hne. unfold calculatePerformanceMetrics.
    by rewrite bool_decide_eq_false_2. }
  split; [exact Hne |]. split; [| split; [| split]].
  - intros r Hr. destruct (decide (length Y_pred = length Y_true)) as [| Hdiff];
      [done |]. rewrite Hne in Hr by done. discriminate Hr.
  - intros Hlen.
    destruct (calculatePerformanceMetrics_equal Y_pred Y_true dataset_type Hlen)
      as [[_ (? & ? & ? & ? & _ & ->)] | [_ ->]]; discriminate.
  - intros Hlen Hex.
    destruct (calculatePerformanceMetrics_equal Y_pred Y_true dataset_type Hlen)
      as [[_ (? & ? & ? & ? & _ & ->)] | [Hnex _]]; [eauto | done].
  - reflexivity.
Qed.

Lemma calculatePerformanceMetrics_length_mismatch_witness :
  calculatePerformanceMetrics ["skills"; "others"; "skills"]
    ["skills"; "others"; "skills"; "education"] "testing" = Raise AssertionError
  ∧ ∃ r, calculatePerformanceMetrics ["skills"; "others"] ["skills"; "skills"] "testing"
         = Ok r.
Proof.
  split.
  - destruct (calculatePerformanceMetrics_length_mismatch
                ["skills"; "others"; "skills"]
                ["skills"; "others"; "skills"; "education"] "testing")
      as (Hdiffer & _).
    apply Hdiffer. simpl. lia.
  - destruct (calculatePerformanceMetrics_length_mismatch
                ["skills"; "others"] ["skills"; "skills"] "testing")
      as (_ & _ & _ & Hequal & _).
    apply Hequal.
    + reflexivity.
    + apply (bool_decide_unpack _). vm_compute. reflexivity.
Defined.

(** C8, as the source has it. For predicted and actual sequences of class
    labels of one length that are not empty, the accuracy of the report is
    the number of positions where the two labels are equal divided by the
    length, and the incorrect count is the length minus that number; when
    the two sequences are equal the accuracy is 1.0 and the incorrect count
    is 0. *)
Theorem calculatePerformanceMetrics_accuracy
    (Y_pred Y_true : list string) (dataset_type : string) :
  length Y_pred = length Y_true →
  Y_true ≠ [] →
  Forall (fun y => y ∈ class_labels) Y_true →
  ∃ r q,
    calculatePerformanceMetrics Y_pred Y_true dataset_type = Ok r
    ∧ accuracy r = Fin q
    ∧ (q == inject_Z (Z.of_nat (matching_positions Y_pred Y_true))
            / inject_Z (Z.of_nat (length Y_true)))%Q
    ∧ num_incorrect r
      = (Z.of_nat (length Y_true) - Z.of_nat (matching_positions Y_pred Y_true))%Z
    ∧ (Y_pred = Y_true → accuracy r = Fin 1 ∧ num_incorrect r = 0%Z).
Proof.
  intros Hlen Hne Hall.
  destruct (calculatePerformanceMetrics_equal Y_pred Y_true dataset_type Hlen)
    as [[_ (metrics & results & cf & log & _ & ->)] | [Hnex _]].
  - destruct Y_true as [|t Y_true]; [done |].
    destruct Y_pred as [|p Y_pred]; [discriminate Hlen |].
    set (ind := fun tp : string * string => if decide (tp.1 = tp.2) then 1%Q else 0%Q).
    set (n := length (t :: Y_true)).
    set (m := matching_positions (p :: Y_pred) (t :: Y_true)).
    assert (Hq : (Qsum (map ind (zip (t :: Y_true) (p :: Y_pred)))
                  / inject_Z (Z.of_nat (length (map ind (zip (t :: Y_true) (p :: Y_pred)))))
                  == inject_Z (Z.of_nat m) / inject_Z (Z.of_nat n))%Q).
    { unfold ind. rewrite Qsum_indicator.
      rewrite length_map, length_zip, Nat.min_l by (simpl in *; lia).
      unfold m. rewrite <- tp_bins_matching. unfold sk.tp_bins.
      rewrite length_fmap. reflexivity. }
    pose (q0 := (Qsum (map ind (zip (t :: Y_true) (p :: Y_pred)))
                 / inject_Z (Z.of_nat (length (map ind (zip (t :: Y_true) (p :: Y_pred))))))%Q).
    assert (Hacc : sk.np_average (map ind (zip (t :: Y_true) (p :: Y_pred)))
                   = Fin (Qred q0)) by reflexivity.
    eexists. exists (Qred q0).
    split; [reflexivity |]. cbn [accuracy num_incorrect].
    split; [exact Hacc |]. split; [rewrite Qred_correct; exact Hq |].
    split; [by rewrite tp_bins_matching |].
    intros Heq. split.
    + rewrite Hacc. f_equal. change 1%Q with (Qred 1). apply Qred_complete.
      unfold q0. rewrite Hq.
      unfold m. rewrite Heq, matching_positions_same. fold n.
      apply Qmult_inv_r. unfold n. simpl length.
      rewrite Nat2Z.inj_succ. unfold Qeq. simpl. lia.
    + rewrite tp_bins_matching, Heq, matching_positions_same. lia.
  - exfalso. apply Hnex. destruct Y_true as [|t Y_true]; [done |].
    apply Forall_cons in Hall as [Ht%classlist_class_labels _].
    apply Exists_exists. exists t. split; [exact Ht | left].
Qed.

Lemma calculatePerformanceMetrics_accuracy_witness :
  ∃ r q,
    calculatePerformanceMetrics ["skills"; "others"; "skills"]
      ["skills"; "skills"; "others"] "testing" = Ok r
    ∧ accuracy r = Fin q
    ∧ (q == inject_Z (Z.of_nat (matching_positions ["skills"; "others"; "skills"]
                                  ["skills"; "skills"; "others"]))
            / inject_Z (Z.of_nat (length ["skills"; "skills"; "others"])))%Q
    ∧ num_incorrect r
      = (Z.of_nat (length ["skills"; "skills"; "others"])
         - Z.of_nat (matching_positions ["skills"; "others"; "skills"]
                       ["skills"; "skills"; "others"]))%Z
    ∧ (["skills"; "others"; "skills"] = ["skills"; "skills"; "others"] →
       accuracy r = Fin 1 ∧ num_incorrect r = 0%Z).
Proof.
  apply (calculatePerformanceMetrics_accuracy ["skills"; "others"; "skills"]
           ["skills"; "skills"; "others"] "testing").
  - reflexivity.
  - discriminate.
  - apply (bool_decide_unpack _). vm_compute. reflexivity.
Defined.

(** C8, as the spec states it, fails on the empty pair of sequences: they
    have one length and agree at every position, yet the accuracy
    scikit-learn computes is [nan], and no report with accuracy 1.0 is
    produced. *)
Lemma accuracy_of_nothing :
  length ([] : list string) = length ([] : list string)
  ∧ sk.accuracy_score [] [] = Ok NaN
  ∧ ¬ ∃ r, calculatePerformanceMetrics [] [] "testing" = Ok r
           ∧ accuracy r = Fin 1 ∧ num_incorrect r = 0%Z.
Proof.
  split; [reflexivity |]. split; [reflexivity |].
  intros (r & Hr & _). vm_compute in Hr. discriminate Hr.
Qed.

(** * Further properties of the module *)

(** ** The label codec on whole sequences *)

Lemma str2onehot_Ok_inv (Y : list string) (M : list (list Q)) :
  str2onehot Y = Ok M → Y ≠ [] ∧ Forall (fun y => y ∈ class_labels) Y.
Proof.
  rewrite str2onehot_unfold. intros HM. split.
  - intros ->. discriminate HM.
  - destruct (py_map encode_label Y) as [new_Y|e] eqn:Hmap; [| discriminate HM].
    apply py_map_Ok in Hmap. clear HM.
    induction Hmap as [|y vec Y new_Y Hy _ IH]; constructor; [| exact IH].
    destruct (decide (y ∈ class_labels)) as [| Hnot]; [done |].
    assert (Hr : encode_label y = Raise KeyError) by by apply encode_label_Raise.
    congruence.
Qed.

Lemma onehot2str_Ok_inv (P : list (list Q)) (labels : list string) :
  onehot2str P = Ok labels →
  ∃ idx_list,
    Forall2 (fun row i => np.argmax row = Ok i) P idx_list
    ∧ Forall2 (fun i L => (L, i) ∈ ENC_LIST) idx_list labels.
Proof.
  rewrite onehot2str_unfold. intros Hlabels.
  destruct (py_map np.argmax P) as [idx_list|e] eqn:Hidx; [| discriminate Hlabels].
  simpl in Hlabels. exists idx_list. split; [by apply py_map_Ok |].
  apply py_map_Ok in Hlabels. eapply Forall2_impl; [exact Hlabels |].
  intros i L. apply decode_index.
Qed.

(** X1. Decoding the encoding of any non-empty sequence of class labels
    returns the sequence itself, label by label and in order. *)
Theorem decode_encode_sequence (Y : list string) :
  Y ≠ [] → Forall (fun y => y ∈ class_labels) Y →
  ∃ M, str2onehot Y = Ok M ∧ onehot2str M = Ok Y.
Proof.
  intros Hne Hall. pose proof (onehot2str_str2onehot Y Hne Hall) as Hrt.
  destruct (str2onehot Y) as [M|e]; [| discriminate Hrt]. by exists M.
Qed.

Lemma decode_encode_sequence_witness :
  ∃ M, str2onehot ["skills"; "others"; "skills"; "education"] = Ok M
       ∧ onehot2str M = Ok ["skills"; "others"; "skills"; "education"].
Proof.
  apply (decode_encode_sequence ["skills"; "others"; "skills"; "education"]).
  - discriminate.
  - apply (bool_decide_unpack _). vm_compute. reflexivity.
Defined.

(** X2. [str2onehot] is injective: two label sequences with the same
    encoding are the same sequence. *)
Theorem str2onehot_injective (Y1 Y2 : list string) (M : list (list Q)) :
  str2onehot Y1 = Ok M → str2onehot Y2 = Ok M → Y1 = Y2.
Proof.
  intros H1 H2.
  destruct (str2onehot_Ok_inv Y1 M H1) as [Hne1 Hall1].
  destruct (str2onehot_Ok_inv Y2 M H2) as [Hne2 Hall2].
  pose proof (onehot2str_str2onehot Y1 Hne1 Hall1) as Hrt1.
  pose proof (onehot2str_str2onehot Y2 Hne2 Hall2) as Hrt2.
  rewrite H1 in Hrt1. rewrite H2 in Hrt2. simpl in Hrt1, Hrt2. congruence.
Qed.

Lemma str2onehot_injective_witness :
  ["skills"; "others"] = ["skills"; "others"].
Proof.
  apply (str2onehot_injective ["skills"; "others"] ["skills"; "others"]
           [[0; 0; 1; 0; 0]%Q; [1; 0; 0; 0; 0]%Q]);
    vm_compute; reflexivity.
Defined.

Lemma onehot2str_Ok_labels (P : list (list Q)) (labels : list string) :
  onehot2str P = Ok labels →
  length labels = length P ∧ Forall (fun L => L ∈ class_labels) labels.
Proof.
  intros (idx_list & Hidx & Hlab)%onehot2str_Ok_inv. split.
  - rewrite <- (Forall2_length _ _ _ Hlab). symmetry. by eapply Forall2_length.
  - eapply Forall2_Forall_r; [exact Hlab |]. apply Forall_forall.
    intros i _ L HL. apply class_label_index. by exists i.
Qed.






(** ** Class probabilities *)

Lemma ENC_LIST_functional (L : string) (i j : nat) :
  (L, i) ∈ ENC_LIST → (L, j) ∈ ENC_LIST → i = j.
Proof.
  intros Hi%(dict_get_Ok _ _ _ ENC_LIST_labels_NoDup)
         Hj%(dict_get_Ok _ _ _ ENC_LIST_labels_NoDup). congruence.
Qed.

Lemma ENC_LIST_injective (L L' : string) (i : nat) :
  (L, i) ∈ ENC_LIST → (L', i) ∈ ENC_LIST → L = L'.
Proof. intros Hi%ENC_DICT_label Hj%ENC_DICT_label. congruence. Qed.

Lemma ENC_DICT_beyond (i : nat) : (5 ≤ i)%nat → dict_get ENC_DICT i = Raise KeyError.
Proof.
  intros Hi. unfold dict_get. destruct (ENC_DICT !! i) as [L|] eqn:HL; [| reflexivity].
  apply ENC_DICT_label, index_lt_5 in HL. lia.
Qed.

(** The loop over [range(len(row))] reads the row in order. *)
Lemma record_row_loop (rest pre : list Q) (d : gmap string Q) :
  py_for (seq (length pre) (length rest))
    (fun (prob_per_sentence : gmap string Q) j =>
       v ← list_get (pre ++ rest) j;
       name ← dict_get ENC_DICT j;
       Ok (<[name := v]> prob_per_sentence))
    d
  = py_for (py_enumerate (length pre) rest)
      (fun (d : gmap string Q) '(j, v) =>
         name ← dict_get ENC_DICT j; Ok (<[name := v]> d))
      d.
Proof.
  revert pre d. induction rest as [|v rest IH]; intros pre d; [reflexivity |].
  assert (Hv : (pre ++ v :: rest) !! length pre = Some v)
    by (by rewrite lookup_app_r, Nat.sub_diag).
  cbn [py_for seq length py_enumerate].
  rewrite (list_get_Some _ _ _ Hv). cbn [mbind result_bind].
  destruct (dict_get ENC_DICT (length pre)) as [name|e]; [| reflexivity].
  cbn [mbind result_bind].
  specialize (IH (pre ++ [v])). rewrite length_app in IH. simpl in IH.
  rewrite Nat.add_1_r, <- app_assoc in IH. by apply IH.
Qed.

Lemma recordClassProbabilites_loop (rest pre : list (list Q))
    (acc : list (gmap string Q)) :
  py_for (seq (length pre) (length rest))
    (fun class_probabilities i =>
       row ← list_get (pre ++ rest) i;
       prob_per_sentence ← py_for (seq 0 (length row))
         (fun (prob_per_sentence : gmap string Q) j =>
            row ← list_get (pre ++ rest) i;
            v ← list_get row j;
            name ← dict_get ENC_DICT j;
            Ok (<[name := v]> prob_per_sentence))
         ∅;
       Ok (class_probabilities ++ [prob_per_sentence]))
    acc
  = (ds ← py_map row_probabilities rest; Ok (acc ++ ds)).
Proof.
  revert pre acc. induction rest as [|row rest IH]; intros pre acc.
  - simpl. by rewrite app_nil_r.
  - assert (Hrow : (pre ++ row :: rest) !! length pre = Some row)
      by (by rewrite lookup_app_r, Nat.sub_diag).
    cbn [py_for seq length py_map].
    rewrite (list_get_Some _ _ _ Hrow). cbn [mbind result_bind].
    rewrite (record_row_loop row [] ∅).
    change (py_for (py_enumerate (length []) row) _ ∅) with (row_probabilities row).
    destruct (row_probabilities row) as [d|e]; [| reflexivity].
    cbn [mbind result_bind].
    specialize (IH (pre ++ [row])). rewrite length_app in IH. simpl in IH.
    rewrite Nat.add_1_r, <- app_assoc in IH. rewrite IH.
    destruct (py_map row_probabilities rest) as [ds|e]; [| reflexivity].
    cbn [mbind result_bind]. by rewrite <- app_assoc.
Qed.

Lemma recordClassProbabilites_unfold (pred : list (list Q)) :
  recordClassProbabilites pred = py_map row_probabilities pred.
Proof.
  unfold recordClassProbabilites.
  pose proof (recordClassProbabilites_loop pred [] []) as Hloop.
  cbn [length app] in Hloop. rewrite Hloop.
  by destruct (py_map row_probabilities pred).
Qed.

(** What the dictionary of a row holds after the columns from [i] on. *)
Lemma row_probabilities_from (row : list Q) (i : nat) (d : gmap string Q) :
  (i + length row ≤ 5)%nat →
  ∃ d',
    py_for (py_enumerate i row)
      (fun (d : gmap string Q) '(j, v) =>
         name ← dict_get ENC_DICT j; Ok (<[name := v]> d))
      d
    = Ok d'
    ∧ ∀ L, d' !! L
           = match py_dict ENC_LIST !! L with
             | Some j =>
                 if decide (i ≤ j < i + length row)%nat then row !! (j - i)%nat
                 else d !! L
             | None => d !! L
             end.
Proof.
  revert i d. induction row as [|v row IH]; intros i d Hi.
  - exists d. split; [reflexivity |]. intros L.
    destruct (py_dict ENC_LIST !! L) as [j|]; [| reflexivity].
    rewrite decide_False; [reflexivity | simpl; lia].
  - simpl in Hi. cbn [py_enumerate py_for].
    destruct (ENC_DICT_lookup i) as (L0 & HL0 & Hget); [lia |].
    rewrite Hget. cbn [mbind result_bind].
    destruct (IH (S i) (<[L0 := v]> d)) as (d' & Hd' & Hlookup); [lia |].
    exists d'. split; [exact Hd' |]. intros L. rewrite Hlookup.
    apply ENC_DICT_label in HL0.
    destruct (py_dict ENC_LIST !! L) as [j|] eqn:Hj.
    + apply (py_dict_lookup _ _ _ ENC_LIST_labels_NoDup) in Hj.
      destruct (decide (j = i)) as [-> | Hne].
      * assert (L = L0) as -> by by eapply ENC_LIST_injective.
        rewrite decide_False by lia. rewrite decide_True by (simpl; lia).
        by rewrite lookup_insert_eq, Nat.sub_diag.
      * assert (L0 ≠ L).
        { intros ->. apply Hne. by eapply ENC_LIST_functional. }
        rewrite lookup_insert_ne by done.
        destruct (decide (S i ≤ j < S i + length row)%nat) as [Hin | Hout].
        -- rewrite decide_True by (simpl; lia).
           replace (j - i)%nat with (S (j - S i)) by lia. reflexivity.
        -- rewrite decide_False by (simpl; lia). reflexivity.
    + rewrite lookup_insert_ne; [reflexivity |]. intros ->.
      apply (py_dict_lookup _ _ _ ENC_LIST_labels_NoDup) in HL0. congruence.
Qed.

Lemma row_probabilities_Ok (row : list Q) :
  (length row ≤ 5)%nat →
  ∃ d, row_probabilities row = Ok d
       ∧ (∀ L j, (L, j) ∈ ENC_LIST → d !! L = row !! j)
       ∧ (∀ L, L ∉ class_labels → d !! L = None).
Proof.
  intros Hlen.
  destruct (row_probabilities_from row 0 ∅) as (d & Hd & Hlookup); [lia |].
  exists d. split; [exact Hd |]. split.
  - intros L j HLj. rewrite Hlookup.
    apply (py_dict_lookup _ _ _ ENC_LIST_labels_NoDup) in HLj. rewrite HLj.
    destruct (decide (0 ≤ j < 0 + length row)%nat) as [Hin | Hout].
    + by rewrite Nat.sub_0_r.
    + rewrite lookup_empty. symmetry. apply lookup_ge_None. lia.
  - intros L HL. rewrite Hlookup.
    apply py_dict_lookup_None in HL. by rewrite HL, lookup_empty.
Qed.

Lemma row_probabilities_overflow (row : list Q) (i : nat) (d : gmap string Q) :
  (i ≤ 5 < i + length row)%nat →
  py_for (py_enumerate i row)
    (fun (d : gmap string Q) '(j, v) =>
       name ← dict_get ENC_DICT j; Ok (<[name := v]> d))
    d
  = Raise KeyError.
Proof.
  revert i d. induction row as [|v row IH]; intros i d Hi; [simpl in Hi; lia |].
  cbn [py_enumerate py_for]. simpl in Hi.
  destruct (decide (i = 5%nat)) as [-> | Hne].
  - by rewrite ENC_DICT_beyond.
  - destruct (ENC_DICT_lookup i) as (L0 & _ & ->); [lia |].
    cbn [mbind result_bind]. apply IH. lia.
Qed.

Lemma row_probabilities_cases (row : list Q) :
  ((length row ≤ 5)%nat ∧ ∃ d, row_probabilities row = Ok d)
  ∨ ((5 < length row)%nat ∧ row_probabilities row = Raise KeyError).
Proof.
  destruct (decide (length row ≤ 5)%nat) as [Hle | Hgt].
  - left. split; [exact Hle |].
    destruct (row_probabilities_Ok row Hle) as (d & Hd & _). eauto.
  - right. split; [lia |]. apply row_probabilities_overflow. lia.
Qed.

(** X6. For rows of at most five columns [recordClassProbabilites] returns
    one dictionary per row; the dictionary of a row maps each class label
    to the row's entry at the label's index under [ENC_LIST] (the index
    [str2onehot] encodes it with), holds no entry for a label whose index
    the row does not reach, and has no other key. *)
Theorem recordClassProbabilites_rows (pred : list (list Q)) :
  Forall (fun row => (length row ≤ 5)%nat) pred →
  ∃ ds, recordClassProbabilites pred = Ok ds
        ∧ length ds = length pred
        ∧ ∀ k row, pred !! k = Some row →
            ∃ d, ds !! k = Some d
                 ∧ (∀ L j, (L, j) ∈ ENC_LIST → d !! L = row !! j)
                 ∧ (∀ L, L ∉ class_labels → d !! L = None).
Proof.
  intros Hshape. rewrite recordClassProbabilites_unfold.
  destruct (py_map_total row_probabilities pred) as [ds Hds].
  { eapply Forall_impl; [exact Hshape |]. intros row Hrow.
    destruct (row_probabilities_Ok row Hrow) as (d & Hd & _). eauto. }
  exists ds. split; [exact Hds |]. split; [by eapply py_map_length |].
  intros k row Hk. apply py_map_Ok in Hds.
  destruct (Forall2_lookup_l _ _ _ _ _ Hds Hk) as (d & Hd & Hrow).
  exists d. split; [exact Hd |].
  rewrite Forall_forall in Hshape.
  destruct (row_probabilities_Ok row) as (d' & Hd' & Hkeys).
  { apply Hshape. by eapply list_elem_of_lookup_2. }
  rewrite Hrow in Hd'. injection Hd' as <-. exact Hkeys.
Qed.

Lemma recordClassProbabilites_rows_witness :
  ∃ ds, recordClassProbabilites [[0.7; 0.1; 0.2]%Q; confident_row] = Ok ds
        ∧ length ds = length [[0.7; 0.1; 0.2]%Q; confident_row]
        ∧ ∀ k row, [[0.7; 0.1; 0.2]%Q; confident_row] !! k = Some row →
            ∃ d, ds !! k = Some d
                 ∧ (∀ L j, (L, j) ∈ ENC_LIST → d !! L = row !! j)
                 ∧ (∀ L, L ∉ class_labels → d !! L = None).
Proof.
  apply (recordClassProbabilites_rows [[0.7; 0.1; 0.2]%Q; confident_row]).
  repeat constructor.
Defined.

(** X7. [recordClassProbabilites] fails only with [KeyError], and exactly
    when some row has more than five columns: the sixth column has no
    label in [ENC_DICT]. *)
Theorem recordClassProbabilites_errors (pred : list (list Q)) (e : exn) :
  recordClassProbabilites pred = Raise e
  ↔ e = KeyError ∧ Exists (fun row => (5 < length row)%nat) pred.
Proof.
  rewrite recordClassProbabilites_unfold. split.
  - intros Hraise%py_map_Raise.
    apply Exists_exists in Hraise as (row & Hrow & Hr).
    destruct (row_probabilities_cases row) as [[_ [d Hd]] | [Hlong Hk]];
      [congruence |].
    split; [congruence |]. apply Exists_exists. eauto.
  - intros [-> Hex]. induction Hex as [row pred Hlong | row pred _ IH]; simpl.
    + destruct (row_probabilities_cases row) as [[Hle _] | [_ ->]]; [lia | reflexivity].
    + rewrite IH.
      destruct (row_probabilities_cases row) as [[_ [d ->]] | [_ ->]]; reflexivity.
Qed.

Example recordClassProbabilites_six_columns :
  recordClassProbabilites [[0.5; 0.1; 0.1; 0.1; 0.1; 0.1]%Q] = Raise KeyError
  ∧ (ds ← recordClassProbabilites [[0.5; 0.3]%Q];
     d ← list_get ds 0;
     Ok (d !! "others", d !! "description", d !! "skills"))
    = Ok (Some 0.5%Q, Some 0.3%Q, None).
Proof. split; vm_compute; reflexivity. Qed.

(** ** The multi-bucket decoder on arbitrary matrices *)

Lemma ENC_DICT_None (i : nat) : (5 ≤ i)%nat → ENC_DICT !! i = None.
Proof.
  intros Hi. destruct (ENC_DICT !! i) as [L|] eqn:HL; [| reflexivity].
  apply ENC_DICT_label, index_lt_5 in HL. lia.
Qed.

Lemma picked_beyond (threshold : Q) (prob : list Q) (i : nat) :
  (5 ≤ i)%nat → picked threshold i prob = [].
Proof.
  revert i. induction prob as [|p prob IH]; intros i Hi; [reflexivity |].
  cbn [picked]. rewrite ENC_DICT_None, IH by lia. by destruct (Qleb threshold p).
Qed.

(** The labels picked by the loop are those of the first five columns,
    whatever the width of the row. *)
Lemma picked_labels_any (threshold : Q) (prob : list Q) :
  picked threshold 0 prob = labels_at_or_above threshold prob.
Proof.
  destruct prob as [|p0 [|p1 [|p2 [|p3 [|p4 tail]]]]];
    unfold labels_at_or_above; simpl;
    rewrite ?(picked_beyond threshold tail 5) by lia;
    repeat match goal with
      | |- context [Qleb threshold ?p] => destruct (Qleb threshold p)
      end; vm_compute; reflexivity.
Qed.

Lemma overflows_spec (threshold : Q) (prob : list Q) (i : nat) :
  overflows threshold i prob = true
  ↔ ∃ j p, prob !! j = Some p ∧ (5 ≤ i + j)%nat ∧ (threshold <= p)%Q.
Proof.
  revert i. induction prob as [|p prob IH]; intros i; cbn [overflows].
  - split; [discriminate |]. intros (j & q & Hj & _). discriminate Hj.
  - rewrite orb_true_iff, andb_true_iff, negb_true_iff, Nat.ltb_ge, Qleb_le, IH.
    split.
    + intros [[Hp Hi] | (j & q & Hj & Hij & Hq)].
      * exists 0%nat, p. split; [reflexivity |]. split; [lia | exact Hp].
      * exists (S j), q. split; [exact Hj |]. split; [lia | exact Hq].
    + intros ([|j] & q & Hj & Hij & Hq).
      * injection Hj as ->. left. split; [exact Hq | lia].
      * right. exists j, q. split; [exact Hj |]. split; [lia | exact Hq].
Qed.

Lemma bucket_loop (threshold : Q) (prob : list Q) (i : nat) (classes : string) :
  py_for (py_enumerate i prob) (bucket_step threshold) classes
  = if overflows threshold i prob then Raise KeyError
    else Ok (classes +:+ with_trailing (picked threshold i prob)).
Proof.
  revert i classes. induction prob as [|p prob IH]; intros i classes;
    cbn [py_enumerate py_for overflows picked bucket_step].
  - by rewrite append_nil_r.
  - destruct (Qleb threshold p); cbn [andb orb].
    + destruct (Nat.ltb_spec i 5) as [Hi | Hi]; cbn [negb orb].
      * destruct (ENC_DICT_lookup i Hi) as (L & HL & Hget).
        rewrite Hget, HL. cbn [mbind result_bind option_list app].
        rewrite IH. destruct (overflows threshold (S i) prob); [reflexivity |].
        cbn [with_trailing]. by rewrite !append_assoc.
      * by rewrite ENC_DICT_beyond.
    + cbn [mbind result_bind app]. apply IH.
Qed.

Lemma bucket_rows_loop {T : Type} (threshold : Q) (probs : list (list Q))
    (sens : list T) (cats : list string) (final_sens : list T) :
  py_for (zip probs sens)
    (fun '(cats, final_sens) '(prob, sen) =>
       classes ← py_for (py_enumerate 0 prob) (bucket_step threshold) "";
       Ok (cats ++ [py_drop_last 2 classes], final_sens ++ [sen]))
    (cats, final_sens)
  = if existsb (overflows threshold 0) (take (length sens) probs)
    then Raise KeyError
    else Ok (cats ++ (bucket_string threshold <$> take (length sens) probs),
             final_sens ++ take (length probs) sens).
Proof.
  revert sens cats final_sens.
  induction probs as [|prob probs IH]; intros sens cats final_sens.
  - destruct sens; simpl; by rewrite !app_nil_r.
  - destruct sens as [|sen sens]; [simpl; by rewrite !app_nil_r |].
    cbn [zip zip_with py_for length take existsb fmap list_fmap].
    rewrite bucket_loop.
    destruct (overflows threshold 0 prob); [reflexivity |].
    cbn [mbind result_bind orb]. rewrite IH.
    destruct (existsb _ _); [reflexivity |].
    rewrite append_nil_l, picked_labels_any, py_drop_last_with_trailing.
    unfold bucket_string. by rewrite <- !app_assoc.
Qed.

Lemma prob2str_multibucket_at_any {T : Type} (threshold : Q)
    (probs : list (list Q)) (sens : list T) :
  prob2str_multibucket_at threshold probs sens
  = if existsb (overflows threshold 0) (take (length sens) probs)
    then Raise KeyError
    else Ok (bucket_string threshold <$> take (length sens) probs,
             take (length probs) sens).
Proof.
  unfold prob2str_multibucket_at. rewrite inverse_ENC_DICT.
  apply (bucket_rows_loop threshold probs sens [] []).
Qed.

Lemma existsb_overflows (threshold : Q) (rows : list (list Q)) :
  existsb (overflows threshold 0) rows = true
  ↔ Exists (fun row => ∃ j p, row !! j = Some p ∧ (5 ≤ j)%nat ∧ (threshold <= p)%Q)
           rows.
Proof.
  rewrite existsb_exists, Exists_exists. split.
  - intros (row & Hrow%list_elem_of_In & Hover%overflows_spec). eauto.
  - intros (row & Hrow & Hover). exists row.
    split; [by apply list_elem_of_In | by apply overflows_spec].
Qed.

(** X8. Rows and sentences are paired with [zip]: when no paired row has an
    entry at or above the threshold past its fifth column, the decoder
    returns one string per pair, that is for as many rows as there are
    sentences and as many sentences as there are rows; rows or sentences
    without a partner are dropped silently, and rows shorter or longer
    than five columns are accepted. *)
Theorem prob2str_multibucket_pairs {T : Type} (threshold : Q)
    (probs : list (list Q)) (sens : list T) :
  ¬ Exists (fun row => ∃ j p, row !! j = Some p ∧ (5 ≤ j)%nat ∧ (threshold <= p)%Q)
           (take (length sens) probs) →
  ∃ cats final_sens,
    prob2str_multibucket_at threshold probs sens = Ok (cats, final_sens)
    ∧ cats = bucket_string threshold <$> take (length sens) probs
    ∧ final_sens = take (length probs) sens
    ∧ length cats = (length probs `min` length sens)%nat
    ∧ length final_sens = (length probs `min` length sens)%nat.
Proof.
  intros Hquiet. rewrite prob2str_multibucket_at_any.
  destruct (existsb _ _) eqn:Hover.
  - by apply existsb_overflows in Hover.
  - eexists _, _. split; [reflexivity |]. split; [reflexivity |].
    split; [reflexivity |].
    rewrite length_fmap, !length_take. lia.
Qed.

Lemma prob2str_multibucket_pairs_witness :
  ∃ cats final_sens,
    prob2str_multibucket_at 0.25
      [[0.5; 0.1; 0.3; 0.05; 0.05; 0.1]%Q; [0.4; 0.6]%Q; [1]%Q] ["a"; "b"]
    = Ok (cats, final_sens)
    ∧ cats = bucket_string 0.25
               <$> take (length ["a"; "b"])
                     [[0.5; 0.1; 0.3; 0.05; 0.05; 0.1]%Q; [0.4; 0.6]%Q; [1]%Q]
    ∧ final_sens
      = take (length [[0.5; 0.1; 0.3; 0.05; 0.05; 0.1]%Q; [0.4; 0.6]%Q; [1]%Q])
          ["a"; "b"]
    ∧ length cats
      = (length [[0.5; 0.1; 0.3; 0.05; 0.05; 0.1]%Q; [0.4; 0.6]%Q; [1]%Q]
         `min` length ["a"; "b"])%nat
    ∧ length final_sens
      = (length [[0.5; 0.1; 0.3; 0.05; 0.05; 0.1]%Q; [0.4; 0.6]%Q; [1]%Q]
         `min` length ["a"; "b"])%nat.
Proof.
  apply (prob2str_multibucket_pairs 0.25
           [[0.5; 0.1; 0.3; 0.05; 0.05; 0.1]%Q; [0.4; 0.6]%Q; [1]%Q] ["a"; "b"]).
  intros Hover%existsb_overflows. vm_compute in Hover. discriminate Hover.
Defined.

(** X9. The decoder fails only with [KeyError], and exactly when some row
    that has a sentence holds, past its fifth column, an entry at or above
    the threshold: a sixth column below the threshold is never looked up. *)
Theorem prob2str_multibucket_errors {T : Type} (threshold : Q)
    (probs : list (list Q)) (sens : list T) (e : exn) :
  prob2str_multibucket_at threshold probs sens = Raise e
  ↔ e = KeyError
    ∧ Exists (fun row => ∃ j p, row !! j = Some p ∧ (5 ≤ j)%nat ∧ (threshold <= p)%Q)
             (take (length sens) probs).
Proof.
  rewrite prob2str_multibucket_at_any, <- existsb_overflows.
  destruct (existsb _ _); split.
  - by intros [= <-].
  - by intros [-> _].
  - discriminate.
  - by intros [_ ?].
Qed.

Example prob2str_multibucket_sixth_column :
  prob2str_multibucket [[0.5; 0.1; 0.1; 0.1; 0.1; 0.1]%Q] ["a"] = Ok (["others"], ["a"])
  ∧ prob2str_multibucket [[0.1; 0.1; 0.1; 0.1; 0.1; 0.5]%Q] ["a"] = Raise KeyError
  ∧ prob2str_multibucket [[0.1; 0.1; 0.1; 0.1; 0.1; 0.5]%Q] ([] : list string)
    = Ok ([], []).
Proof. repeat split; vm_compute; reflexivity. Qed.

(** ** One row through the four decoders *)

Lemma onehot2str_row (P : list (list Q)) (labels : list string) (k : nat)
    (row : list Q) (L : string) :
  onehot2str P = Ok labels → P !! k = Some row → labels !! k = Some L →
  ∃ i, first_max row i ∧ (L, i) ∈ ENC_LIST.
Proof.
  intros (idx_list & Hidx & Hlab)%onehot2str_Ok_inv Hrow HL.
  destruct (Forall2_lookup_l _ _ _ _ _ Hidx Hrow) as (i & Hi & Hargmax).
  destruct (Forall2_lookup_l _ _ _ _ _ Hlab Hi) as (L' & HL' & HLi).
  assert (L' = L) as -> by congruence.
  exists i. split; [| exact HLi].
  destruct (argmax_first_max row) as (i' & Hi' & Hmax).
  { intros ->. discriminate Hargmax. }
  congruence.
Qed.

Lemma confidence_row (pred : list (list Q)) (flags : list pyobj) (k : nat)
    (row : list Q) (flag : pyobj) :
  calculatePredictionConfidence pred = Ok flags →
  pred !! k = Some row → flags !! k = Some flag →
  row ≠ [] ∧ confidence_flag row = Ok flag.
Proof.
  rewrite calculatePredictionConfidence_unfold. intros Hflags%py_map_Ok Hrow Hflag.
  destruct (Forall2_lookup_l _ _ _ _ _ Hflags Hrow) as (flag' & Hflag' & Hcf).
  assert (flag' = flag) as -> by congruence.
  split; [| exact Hcf]. intros ->. discriminate Hcf.
Qed.

Lemma record_row (pred : list (list Q)) (ds : list (gmap string Q)) (k : nat)
    (row : list Q) (d : gmap string Q) :
  recordClassProbabilites pred = Ok ds → pred !! k = Some row → ds !! k = Some d →
  (∀ L j, (L, j) ∈ ENC_LIST → d !! L = row !! j)
  ∧ (∀ L, L ∉ class_labels → d !! L = None).
Proof.
  rewrite recordClassProbabilites_unfold. intros Hds%py_map_Ok Hrow Hd.
  destruct (Forall2_lookup_l _ _ _ _ _ Hds Hrow) as (d' & Hd' & Hrp).
  assert (d' = d) as -> by congruence.
  destruct (row_probabilities_cases row) as [[Hle _] | [_ Hr]]; [| congruence].
  destruct (row_probabilities_Ok row Hle) as (d'' & Hd'' & Hkeys).
  assert (d'' = d) as -> by congruence. exact Hkeys.
Qed.

Lemma bucket_row {T : Type} (threshold : Q) (probs : list (list Q)) (sens : list T)
    (cats : list string) (final_sens : list T) (k : nat) (row : list Q) (c : string) :
  prob2str_multibucket_at threshold probs sens = Ok (cats, final_sens) →
  probs !! k = Some row → cats !! k = Some c →
  c = bucket_string threshold row
  ∧ ∀ j p, row !! j = Some p → (5 ≤ j)%nat → (p < threshold)%Q.
Proof.
  rewrite prob2str_multibucket_at_any.
  destruct (existsb _ _) eqn:Hover; [discriminate |].
  intros [= <- <-] Hrow Hc.
  rewrite list_lookup_fmap in Hc.
  destruct (take (length sens) probs !! k) as [row'|] eqn:Hrow'; [| discriminate Hc].
  assert (row' = row) as ->.
  { apply lookup_take_Some in Hrow' as [Hrow' _]. congruence. }
  injection Hc as <-. split; [reflexivity |].
  intros j p Hj Hge. apply Qnot_le_lt. intros Hle.
  apply not_true_iff_false in Hover. apply Hover, existsb_overflows, Exists_exists.
  exists row. split; [by eapply list_elem_of_lookup_2 | eauto].
Qed.

Lemma class_label_nonempty (L : string) : L ∈ class_labels → L ≠ "".
Proof. intros HL. unfold class_labels, ENC_LIST in HL. simpl in HL. elem_cases HL; discriminate. Qed.

Lemma concat_empty (names : list string) :
  Forall (fun n => n ≠ "") names → String.concat ", " names = "" → names = [].
Proof.
  intros Hne Hcat. destruct Hne as [|n names Hn Hrest]; [reflexivity |].
  exfalso. destruct names as [|m names]; simpl in Hcat; [done |].
  destruct n; [done | discriminate Hcat].
Qed.

Lemma labels_at_or_above_known (threshold : Q) (row : list Q) :
  Forall (fun n => n ≠ "") (labels_at_or_above threshold row).
Proof.
  apply Forall_forall. intros L (i & p & HL & _)%elem_of_labels_at_or_above.
  apply class_label_nonempty, class_label_index. eauto.
Qed.

(** The string of a row is empty exactly when none of its first five
    entries reaches the threshold. *)
Lemma bucket_string_empty (threshold : Q) (row : list Q) :
  bucket_string threshold row = ""
  ↔ ∀ j p, (j < 5)%nat → row !! j = Some p → (p < threshold)%Q.
Proof.
  unfold bucket_string. split.
  - intros Hnil%concat_empty; [| apply labels_at_or_above_known].
    intros j p Hj Hp. apply Qnot_le_lt. intros Hle.
    destruct (index_label j Hj) as [L HL].
    assert (Hin : L ∈ labels_at_or_above threshold row)
      by (apply elem_of_labels_at_or_above; eauto).
    rewrite Hnil in Hin. by apply elem_of_nil in Hin.
  - intros Hlow.
    destruct (labels_at_or_above threshold row) as [|L names] eqn:Hnames;
      [reflexivity |].
    assert (Hin : L ∈ labels_at_or_above threshold row) by (rewrite Hnames; left).
    apply elem_of_labels_at_or_above in Hin as (j & p & HL & Hp & Hle).
    apply index_lt_5 in HL. specialize (Hlow j p HL Hp). lra.
Qed.

(** X10. In a result of the multi-bucket decoder the string of a row is
    empty if and only if every entry of the row is below the threshold. *)
Theorem prob2str_multibucket_empty_iff {T : Type} (threshold : Q)
    (probs : list (list Q)) (sens : list T) (cats : list string)
    (final_sens : list T) (k : nat) (row : list Q) (c : string) :
  prob2str_multibucket_at threshold probs sens = Ok (cats, final_sens) →
  probs !! k = Some row → cats !! k = Some c →
  c = "" ↔ Forall (fun p => (p < threshold)%Q) row.
Proof.
  intros Hres Hrow Hc.
  destruct (bucket_row threshold probs sens cats final_sens k row c Hres Hrow Hc)
    as [-> Htail].
  rewrite bucket_string_empty, Forall_lookup. split.
  - intros Hlow j p Hp. destruct (decide (j < 5)%nat); [eauto | apply (Htail j); [done | lia]].
  - intros Hall j p _ Hp. by eapply Hall.
Qed.

Lemma prob2str_multibucket_empty_iff_witness :
  "" = "" ↔ Forall (fun p => (p < 0.5)%Q) [0.1; 0.2; 0.3; 0.1; 0.1; 0.2]%Q.
Proof.
  apply (prob2str_multibucket_empty_iff 0.5
           [[0.5; 0.1]%Q; [0.1; 0.2; 0.3; 0.1; 0.1; 0.2]%Q] ["a"; "b"; "c"]
           ["others"; ""] ["a"; "b"] 1 [0.1; 0.2; 0.3; 0.1; 0.1; 0.2]%Q "").
  - vm_compute. reflexivity.
  - reflexivity.
  - reflexivity.
Defined.

(** X11. When every entry of every five-column row is at or above the
    threshold, each row gets all five class labels, in class-index order. *)
Theorem prob2str_multibucket_all_labels {T : Type} (threshold : Q)
    (probs : list (list Q)) (sens : list T) :
  Forall (fun row => length row = 5%nat ∧ Forall (fun p => (threshold <= p)%Q) row)
         probs →
  (length probs ≤ length sens)%nat →
  prob2str_multibucket_at threshold probs sens
  = Ok (replicate (length probs) "others, description, skills, job_title, education",
        take (length probs) sens).
Proof.
  intros Hall Hlen. rewrite prob2str_multibucket_at_any.
  rewrite take_ge by lia.
  assert (Hquiet : existsb (overflows threshold 0) probs = false).
  { apply not_true_iff_false. intros Hover%existsb_overflows.
    apply Exists_exists in Hover as (row & Hrow & j & p & Hj & Hge & _).
    rewrite Forall_forall in Hall. destruct (Hall row Hrow) as [Hfive _].
    apply lookup_lt_Some in Hj. lia. }
  rewrite Hquiet. f_equal. f_equal.
  clear Hlen Hquiet. induction Hall as [|row probs [Hfive Hrow] _ IH];
    [reflexivity |].
  cbn [fmap list_fmap length replicate]. f_equal; [| exact IH].
  destruct row as [|p0 [|p1 [|p2 [|p3 [|p4 [|]]]]]]; try discriminate Hfive.
  repeat match goal with
    | H : Forall _ (_ :: _) |- _ => apply Forall_cons in H as [?%Qleb_le H]
    end.
  unfold bucket_string, labels_at_or_above. simpl.
  repeat match goal with H : Qleb _ _ = true |- _ => rewrite H; clear H end.
  vm_compute. reflexivity.
Qed.

Lemma prob2str_multibucket_all_labels_witness :
  prob2str_multibucket_at 0 [[0.5; 0.1; 0.3; 0.05; 0.05]%Q] ["a"]
  = Ok (replicate (length [[0.5; 0.1; 0.3; 0.05; 0.05]%Q])
          "others, description, skills, job_title, education",
        take (length [[0.5; 0.1; 0.3; 0.05; 0.05]%Q]) ["a"]).
Proof.
  apply (prob2str_multibucket_all_labels 0 [[0.5; 0.1; 0.3; 0.05; 0.05]%Q] ["a"]).
  - repeat constructor; unfold Qle; simpl; lia.
  - simpl. lia.
Defined.

(** X12. The single-label and the multi-label decoder agree: whenever the
    string of a row is not empty, the label [onehot2str] gives the row is
    one of the labels joined in that string. *)
Theorem best_label_in_bucket {T : Type} (threshold : Q) (probs : list (list Q))
    (sens : list T) (labels cats : list string) (final_sens : list T)
    (k : nat) (row : list Q) (L c : string) :
  onehot2str probs = Ok labels →
  prob2str_multibucket_at threshold probs sens = Ok (cats, final_sens) →
  probs !! k = Some row → labels !! k = Some L → cats !! k = Some c →
  c ≠ "" →
  c = String.concat ", " (labels_at_or_above threshold row)
  ∧ L ∈ labels_at_or_above threshold row.
Proof.
  intros Hlabels Hres Hrow HL Hc Hne.
  destruct (bucket_row threshold probs sens cats final_sens k row c Hres Hrow Hc)
    as [-> _].
  split; [reflexivity |].
  destruct (onehot2str_row probs labels k row L Hlabels Hrow HL)
    as (i & (x & Hx & Hmax & _) & HLi).
  apply elem_of_labels_at_or_above. exists i, x. split; [exact HLi |].
  split; [exact Hx |].
  apply Qnot_lt_le. intros Hlow. apply Hne, bucket_string_empty.
  intros j p _ Hp. specialize (Hmax j p Hp). lra.
Qed.

Lemma best_label_in_bucket_witness :
  "others, skills" = String.concat ", " (labels_at_or_above 0.25 [0.5; 0.1; 0.3; 0.05; 0.05]%Q)
  ∧ "others" ∈ labels_at_or_above 0.25 [0.5; 0.1; 0.3; 0.05; 0.05]%Q.
Proof.
  apply (best_label_in_bucket 0.25 [[0.5; 0.1; 0.3; 0.05; 0.05]%Q] ["a"]
           ["others"] ["others, skills"] ["a"] 0 [0.5; 0.1; 0.3; 0.05; 0.05]%Q
           "others" "others, skills").
  - vm_compute. reflexivity.
  - vm_compute. reflexivity.
  - reflexivity.
  - reflexivity.
  - reflexivity.
  - discriminate.
Defined.

Lemma first_max_exceeds (t : Q) (row : list Q) (i : nat) (x : Q) :
  first_max row i → row !! i = Some x → max_exceeds t row ↔ (t < x)%Q.
Proof.
  intros (x' & Hx' & Hmax & _) Hx. assert (x' = x) as -> by congruence. split.
  - intros (m & Hm & _ & Hlt). apply list_elem_of_lookup_1 in Hm as [j Hj].
    specialize (Hmax j m Hj). lra.
  - intros Hlt. exists x. split; [by eapply list_elem_of_lookup_2 |].
    split; [| exact Hlt]. apply Forall_lookup. intros j p Hp. by eapply Hmax.
Qed.

Lemma confidence_flag_YES (row : list Q) (flag : pyobj) :
  confidence_flag row = Ok flag →
  flag = PyStr "YES" ↔ max_exceeds CONFIDENCE_THRESHOLD row.
Proof.
  intros Hflag.
  destruct (confidence_flag_spec row) as [[Hmax H] | [Hmax H]].
  - intros ->. discriminate Hflag.
  - split; [done | congruence].
  - split; [| done]. intros ->. rewrite Hflag in H. discriminate H.
Qed.

(** X13. The three per-row reports agree.  For every row, the probability
    [recordClassProbabilites] records under the label chosen by
    [onehot2str] is the largest the row's dictionary holds, and
    [calculatePredictionConfidence] flags the row "YES" exactly when that
    probability is strictly greater than 0.65. *)
Theorem best_label_probability (pred : list (list Q)) (labels : list string)
    (ds : list (gmap string Q)) (flags : list pyobj) (k : nat)
    (L : string) (d : gmap string Q) (flag : pyobj) :
  onehot2str pred = Ok labels →
  recordClassProbabilites pred = Ok ds →
  calculatePredictionConfidence pred = Ok flags →
  labels !! k = Some L → ds !! k = Some d → flags !! k = Some flag →
  ∃ x, d !! L = Some x
       ∧ (∀ L' p, d !! L' = Some p → (p <= x)%Q)
       ∧ (flag = PyStr "YES" ↔ (CONFIDENCE_THRESHOLD < x)%Q).
Proof.
  intros Hlabels Hds Hflags HL Hd Hflag.
  assert (Hk : (k < length pred)%nat).
  { apply onehot2str_Ok_labels in Hlabels as [<- _]. by eapply lookup_lt_Some. }
  apply lookup_lt_is_Some_2 in Hk as [row Hrow].
  destruct (onehot2str_row pred labels k row L Hlabels Hrow HL) as (i & Hmax & HLi).
  destruct (record_row pred ds k row d Hds Hrow Hd) as [Hkeys Hother].
  destruct (confidence_row pred flags k row flag Hflags Hrow Hflag) as [_ Hcf].
  pose proof Hmax as (x & Hx & Hle & _).
  exists x. split; [by rewrite (Hkeys L i HLi) |]. split.
  - intros L' p Hp. destruct (decide (L' ∈ class_labels)) as [Hin | Hnot].
    + apply class_label_index in Hin as [j Hj].
      rewrite (Hkeys L' j Hj) in Hp. by eapply Hle.
    + rewrite (Hother L' Hnot) in Hp. discriminate Hp.
  - rewrite (confidence_flag_YES row flag Hcf). by apply (first_max_exceeds _ row i).
Qed.

Lemma best_label_probability_witness :
  ∃ x, ({[ "others" := 0.1%Q; "description" := 0.75%Q ]} : gmap string Q)
         !! "description" = Some x
       ∧ (∀ L' p, ({[ "others" := 0.1%Q; "description" := 0.75%Q ]} : gmap string Q)
                    !! L' = Some p → (p <= x)%Q)
       ∧ (PyStr "YES" = PyStr "YES" ↔ (CONFIDENCE_THRESHOLD < x)%Q).
Proof.
  apply (best_label_probability [[0.1; 0.75]%Q] ["description"]
           [{[ "others" := 0.1%Q; "description" := 0.75%Q ]}] [PyStr "YES"] 0).
  - vm_compute. reflexivity.
  - vm_compute. reflexivity.
  - vm_compute. reflexivity.
  - reflexivity.
  - reflexivity.
  - reflexivity.
Defined.

Lemma thresholds_ordered : (PROB_THRESHOLD < CONFIDENCE_THRESHOLD)%Q.
Proof. reflexivity. Qed.

(** X14. A prediction flagged "YES" is never left without a label by the
    multi-bucket decoder at [PROB_THRESHOLD]: the string of its row is not
    empty and lists the label [onehot2str] chooses (0.65 exceeds 0.20). *)
Theorem confident_row_in_bucket {T : Type} (pred : list (list Q)) (sens : list T)
    (labels cats : list string) (final_sens : list T) (flags : list pyobj)
    (k : nat) (row : list Q) (L c : string) :
  calculatePredictionConfidence pred = Ok flags →
  onehot2str pred = Ok labels →
  prob2str_multibucket pred sens = Ok (cats, final_sens) →
  pred !! k = Some row → flags !! k = Some (PyStr "YES") →
  labels !! k = Some L → cats !! k = Some c →
  c ≠ "" ∧ L ∈ labels_at_or_above PROB_THRESHOLD row.
Proof.
  intros Hflags Hlabels Hres Hrow Hflag HL Hc. unfold prob2str_multibucket in Hres.
  destruct (confidence_row pred flags k row _ Hflags Hrow Hflag) as [_ Hcf].
  destruct (onehot2str_row pred labels k row L Hlabels Hrow HL) as (i & Hmax & HLi).
  pose proof Hmax as (x & Hx & _).
  assert (Hconf : (CONFIDENCE_THRESHOLD < x)%Q).
  { apply (first_max_exceeds _ row i x Hmax Hx).
    by apply (confidence_flag_YES row _ Hcf). }
  pose proof thresholds_ordered as Hord.
  assert (Hin : L ∈ labels_at_or_above PROB_THRESHOLD row).
  { apply elem_of_labels_at_or_above. exists i, x. repeat split; [done.. | lra]. }
  split; [| exact Hin].
  destruct (bucket_row _ pred sens cats final_sens k row c Hres Hrow Hc) as [-> _].
  intros Hempty. apply index_lt_5 in HLi.
  pose proof (proj1 (bucket_string_empty _ _) Hempty i x HLi Hx). lra.
Qed.

Lemma confident_row_in_bucket_witness :
  "description" ≠ "" ∧ "description" ∈ labels_at_or_above PROB_THRESHOLD [0.1; 0.75]%Q.
Proof.
  apply (confident_row_in_bucket [[0.1; 0.75]%Q] ["a"] ["description"] ["description"]
           ["a"] [PyStr "YES"] 0 [0.1; 0.75]%Q "description" "description").
  - vm_compute. reflexivity.
  - vm_compute. reflexivity.
  - vm_compute. reflexivity.
  - reflexivity.
  - reflexivity.
  - reflexivity.
  - reflexivity.
Defined.

(** X15. [calculatePredictionConfidence] accepts rows of any width but
    zero: it fails only with [ValueError], exactly when some row is empty,
    and otherwise flags every row by its largest entry. *)
Theorem calculatePredictionConfidence_any_width (pred : list (list Q)) :
  (∀ e, calculatePredictionConfidence pred = Raise e
        ↔ e = ValueError ∧ Exists (fun row => row = []) pred)
  ∧ (Forall (fun row => row ≠ []) pred →
     ∃ flags,
       calculatePredictionConfidence pred = Ok flags
       ∧ Forall2 (fun row flag =>
                    (max_exceeds CONFIDENCE_THRESHOLD row ∧ flag = PyStr "YES")
                    ∨ (¬ max_exceeds CONFIDENCE_THRESHOLD row ∧ flag = PyStr "NO"))
                 pred flags).
Proof.
  rewrite calculatePredictionConfidence_unfold. split.
  - intros e. split.
    + intros Hraise%py_map_Raise.
      apply Exists_exists in Hraise as (row & Hrow & Hr).
      destruct row as [|x row].
      * change (@Raise pyobj ValueError = Raise e) in Hr. injection Hr as <-.
        split; [reflexivity |]. apply Exists_exists. eauto.
      * discriminate Hr.
    + intros [-> Hex]. induction Hex as [row pred -> | row pred _ IH]; simpl.
      * reflexivity.
      * rewrite IH. by destruct row.
  - intros Hall.
    destruct (py_map_total confidence_flag pred) as [flags Hflags].
    { eapply Forall_impl; [exact Hall |]. intros row Hrow.
      destruct (confidence_flag_spec row Hrow) as [[_ H] | [_ H]]; eauto. }
    exists flags. split; [exact Hflags |]. apply py_map_Ok in Hflags.
    clear -Hflags Hall. induction Hflags as [|row flag pred flags Hrow _ IH];
      [constructor |].
    apply Forall_cons in Hall as [Hne Hall]. constructor; [| by apply IH].
    destruct (confidence_flag_spec row Hne) as [[Hmax H] | [Hmax H]].
    + left. split; [done | congruence].
    + right. split; [done | congruence].
Qed.

Lemma calculatePredictionConfidence_any_width_witness :
  ∃ flags,
    calculatePredictionConfidence [[0.9]%Q; [0.2; 0.2; 0.2; 0.2; 0.1; 0.1]%Q] = Ok flags
    ∧ Forall2 (fun row flag =>
                 (max_exceeds CONFIDENCE_THRESHOLD row ∧ flag = PyStr "YES")
                 ∨ (¬ max_exceeds CONFIDENCE_THRESHOLD row ∧ flag = PyStr "NO"))
              [[0.9]%Q; [0.2; 0.2; 0.2; 0.2; 0.1; 0.1]%Q] flags.
Proof.
  destruct (calculatePredictionConfidence_any_width
              [[0.9]%Q; [0.2; 0.2; 0.2; 0.2; 0.1; 0.1]%Q]) as [_ Hflags].
  apply Hflags. repeat constructor; discriminate.
Defined.

(** ** More on the metrics engine *)

(** Every step behind a report. *)
Lemma calculatePerformanceMetrics_Ok_inv (Y_pred Y_true : list string)
    (dataset_type : string) (r : report) :
  calculatePerformanceMetrics Y_pred Y_true dataset_type = Ok r →
  length Y_pred = length Y_true
  ∧ num_incorrect r
    = (Z.of_nat (length Y_true) - Z.of_nat (length (sk.tp_bins Y_true Y_pred)))%Z
  ∧ accuracy r
    = sk.np_average
        (map (fun tp => if decide (tp.1 = tp.2) then 1%Q else 0%Q) (zip Y_true Y_pred))
  ∧ precision_recall_f1 Y_pred Y_true classlist = Ok (metrics r)
  ∧ micro_macro_weighted Y_pred Y_true = Ok (micro_macro_weighted_scores r)
  ∧ sk.confusion_matrix Y_true Y_pred classlist = Ok (cf_matrix r).
Proof.
  intros Hr. unfold calculatePerformanceMetrics in Hr.
  destruct (bool_decide (length Y_pred = length Y_true)) eqn:Hlen;
    [| discriminate Hr].
  apply bool_decide_eq_true in Hlen. cbn [negb] in Hr.
  assert (Hlen' : length Y_true = length Y_pred) by done.
  rewrite accuracy_count_Ok, accuracy_score_Ok in Hr by done.
  cbn [mbind result_bind] in Hr.
  destruct (precision_recall_f1 Y_pred Y_true classlist) as [m|e]; [| discriminate Hr].
  cbn [mbind result_bind] in Hr.
  destruct (micro_macro_weighted Y_pred Y_true) as [w|e]; [| discriminate Hr].
  cbn [mbind result_bind] in Hr.
  destruct (sk.confusion_matrix Y_true Y_pred classlist) as [cf|e]; [| discriminate Hr].
  cbn [mbind result_bind] in Hr.
  destruct (py_for (seq 0 (length classlist)) _ _) as [log1|e]; [| discriminate Hr].
  cbn [mbind result_bind] in Hr.
  destruct (py_for _ _ log1) as [log2|e]; [| discriminate Hr].
  cbn [mbind result_bind] in Hr. injection Hr as <-. auto 10.
Qed.

(** X16. The failures of [calculatePerformanceMetrics]: besides the
    [AssertionError] for sequences of different lengths it raises only
    [ValueError], exactly when the lengths agree and none of the five
    classes occurs among the actual labels (as for two empty sequences);
    its dictionary and list accesses never fail. *)
Theorem calculatePerformanceMetrics_errors (Y_pred Y_true : list string)
    (dataset_type : string) (e : exn) :
  calculatePerformanceMetrics Y_pred Y_true dataset_type = Raise e
  ↔ (e = AssertionError ∧ length Y_pred ≠ length Y_true)
    ∨ (e = ValueError ∧ length Y_pred = length Y_true
       ∧ Forall (fun y => y ∉ classlist) Y_true).
Proof.
  assert (Hnone : Forall (fun y => y ∉ classlist) Y_true
                  ↔ ¬ Exists (fun c => c ∈ Y_true) classlist).
  { rewrite Forall_forall, Exists_exists. split.
    - intros Hall (c & Hc & Hin). by apply (Hall c).
    - intros Hnex y Hy Hin. apply Hnex. eauto. }
  destruct (decide (length Y_pred = length Y_true)) as [Hlen | Hlen].
  - destruct (calculatePerformanceMetrics_equal Y_pred Y_true dataset_type Hlen)
      as [[Hex (? & ? & ? & ? & _ & ->)] | [Hnex ->]].
    + split; [discriminate |]. intros [[_ ?] | (_ & _ & Hall%Hnone)]; done.
    + split.
      * intros [= <-]. right. by rewrite Hnone.
      * intros [[_ ?] | (-> & _)]; done.
  - assert (Hraise : calculatePerformanceMetrics Y_pred Y_true dataset_type
                     = Raise AssertionError).
    { unfold calculatePerformanceMetrics. by rewrite bool_decide_eq_false_2. }
    rewrite Hraise. split.
    + intros [= <-]. by left.
    + intros [[-> _] | (_ & ? & _)]; done.
Qed.

Example calculatePerformanceMetrics_unknown_actual :
  calculatePerformanceMetrics ["skills"] ["salary"] "testing" = Raise ValueError
  ∧ calculatePerformanceMetrics [] [] "testing" = Raise ValueError
  ∧ ∃ r, calculatePerformanceMetrics ["salary"] ["skills"] "testing" = Ok r.
Proof. repeat split; [vm_compute; reflexivity.. | eexists; vm_compute; reflexivity]. Qed.

(** *** Quotients *)

Lemma prf_divide_Qeq (a b : Z) :
  b ≠ 0%Z → (sk.prf_divide a b == inject_Z a / inject_Z b)%Q.
Proof.
  intros Hb. unfold sk.prf_divide. rewrite decide_False by done. apply Qred_correct.
Qed.

Lemma prf_divide_complete (a b : Z) (q : Q) :
  b ≠ 0%Z → (q == inject_Z a / inject_Z b)%Q → Qred q = sk.prf_divide a b.
Proof.
  intros Hb Hq. unfold sk.prf_divide. rewrite decide_False by done.
  by apply Qred_complete.
Qed.

Lemma prf_divide_bounds (a b : Z) :
  (0 ≤ a ≤ b)%Z → (0 <= sk.prf_divide a b <= 1)%Q.
Proof.
  intros [Ha Hab]. destruct (decide (b = 0%Z)) as [-> | Hb].
  - unfold sk.prf_divide. rewrite decide_True by done. lra.
  - rewrite prf_divide_Qeq by done.
    assert (Hpos : (0 < inject_Z b)%Q).
    { change 0%Q with (inject_Z 0). rewrite <- Zlt_Qlt. lia. }
    split.
    + apply Qle_shift_div_l; [exact Hpos |]. rewrite Qmult_0_l.
      change 0%Q with (inject_Z 0). by rewrite <- Zle_Qle.
    + apply Qle_shift_div_r; [exact Hpos |]. rewrite Qmult_1_l.
      by rewrite <- Zle_Qle.
Qed.

Lemma prf_divide_same (a : Z) : a ≠ 0%Z → sk.prf_divide a a = 1%Q.
Proof.
  intros Ha. change 1%Q with (Qred 1). unfold sk.prf_divide.
  rewrite decide_False by done. apply Qred_complete.
  apply Qmult_inv_r. change 0%Q with (inject_Z 0). by rewrite inject_Z_injective.
Qed.

Lemma np_average_indicator (l : list (string * string)) :
  l ≠ [] →
  sk.np_average (map (fun tp => if decide (tp.1 = tp.2) then 1%Q else 0%Q) l)
  = Fin (sk.prf_divide (Z.of_nat (length (filter (fun tp => tp.1 = tp.2) l)))
                       (Z.of_nat (length l))).
Proof.
  intros Hne. destruct l as [|tp l]; [done |].
  set (ind := fun tp : string * string => if decide (tp.1 = tp.2) then 1%Q else 0%Q).
  change (sk.np_average (map ind (tp :: l)))
    with (Fin (Qred (Qsum (map ind (tp :: l))
                     / inject_Z (Z.of_nat (length (map ind (tp :: l))))))).
  f_equal. apply prf_divide_complete; [simpl; lia |].
  unfold ind. by rewrite Qsum_indicator, length_map.
Qed.

(** The accuracy behind a report, as a quotient of two counts. *)
Lemma report_accuracy (Y_pred Y_true : list string) (dataset_type : string)
    (r : report) :
  calculatePerformanceMetrics Y_pred Y_true dataset_type = Ok r →
  Y_true ≠ []
  ∧ length Y_pred = length Y_true
  ∧ num_incorrect r
    = (Z.of_nat (length Y_true) - Z.of_nat (matching_positions Y_pred Y_true))%Z
  ∧ accuracy r
    = Fin (sk.prf_divide (Z.of_nat (matching_positions Y_pred Y_true))
                         (Z.of_nat (length Y_true))).
Proof.
  intros (Hlen & Hinc & Hacc & _ & _ & Hcf)%calculatePerformanceMetrics_Ok_inv.
  assert (Hne : Y_true ≠ []).
  { intros ->. destruct Y_pred; [| discriminate Hlen]. discriminate Hcf. }
  split; [exact Hne |]. split; [exact Hlen |].
  split; [by rewrite <- tp_bins_matching |].
  rewrite Hacc, np_average_indicator.
  - rewrite <- tp_bins_matching. unfold sk.tp_bins.
    rewrite length_fmap, length_zip, Nat.min_l by lia. reflexivity.
  - destruct Y_true; [done |]. destruct Y_pred; [discriminate Hlen | discriminate].
Qed.

Lemma matching_positions_le (Y_pred Y_true : list string) :
  (matching_positions Y_pred Y_true ≤ length Y_true)%nat.
Proof.
  unfold matching_positions.
  etrans; [apply length_filter |]. by rewrite length_seq.
Qed.



(** *** Sums of counts *)

Lemma Zsum_indicator (y : string) (labels : list string) :
  NoDup labels →
  Zsum (map (fun c => if decide (y = c) then 1%Z else 0%Z) labels)
  = if decide (y ∈ labels) then 1%Z else 0%Z.
Proof.
  induction 1 as [|c labels Hc _ IH]; [reflexivity |].
  cbn [map Zsum foldr]. fold (Zsum (map (fun c => if decide (y = c) then 1%Z else 0%Z) labels)).
  rewrite IH. destruct (decide (y = c)) as [-> | Hne].
  - rewrite decide_False by done. rewrite decide_True by left. reflexivity.
  - destruct (decide (y ∈ labels)) as [Hin | Hnin].
    + rewrite decide_True by (by right). reflexivity.
    + rewrite decide_False; [reflexivity |]. by intros [? | ?]%elem_of_cons.
Qed.

Lemma Zsum_plus (f g : string → Z) (labels : list string) :
  Zsum (map (fun c => (f c + g c)%Z) labels)
  = (Zsum (map f labels) + Zsum (map g labels))%Z.
Proof.
  induction labels as [|c labels IH]; [reflexivity |].
  cbn [map Zsum foldr] in *. unfold Zsum in IH. lia.
Qed.

Lemma bincount_cons (y : string) (Y : list string) (c : string) :
  sk.bincount (y :: Y) c = ((if decide (y = c) then 1 else 0) + sk.bincount Y c)%Z.
Proof.
  unfold sk.bincount. destruct (decide (y = c)) as [-> | Hne].
  - rewrite count_occ_cons_eq by done. lia.
  - rewrite count_occ_cons_neq by done. lia.
Qed.

(** Counting every label of [Y] once counts [Y]. *)
Lemma Zsum_bincount (Y labels : list string) :
  NoDup labels → Forall (fun y => y ∈ labels) Y →
  Zsum (map (sk.bincount Y) labels) = Z.of_nat (length Y).
Proof.
  intros Hnodup. induction 1 as [|y Y Hy _ IH].
  - induction labels as [|c labels IHl]; [reflexivity |].
    apply NoDup_cons in Hnodup as [_ Hnodup]. cbn [map Zsum foldr].
    specialize (IHl Hnodup). unfold Zsum in IHl. rewrite IHl. reflexivity.
  - rewrite (map_ext _ _ (bincount_cons y Y)).
    rewrite (Zsum_plus (fun c => if decide (y = c) then 1%Z else 0%Z) (sk.bincount Y)).
    rewrite Zsum_indicator, decide_True, IH by done. simpl length. lia.
Qed.

Lemma unique_labels_NoDup (y_true y_pred : list string) :
  NoDup (sk.unique_labels y_true y_pred).
Proof.
  unfold sk.unique_labels. rewrite merge_sort_Permutation. apply NoDup_remove_dups.
Qed.

Lemma elem_of_unique_labels (y_true y_pred : list string) (c : string) :
  c ∈ sk.unique_labels y_true y_pred ↔ c ∈ y_true ∨ c ∈ y_pred.
Proof.
  unfold sk.unique_labels.
  by rewrite merge_sort_Permutation, elem_of_remove_dups, elem_of_app.
Qed.

Lemma micro_sums (y_true y_pred : list string) :
  let labels := sk.unique_labels y_true y_pred in
  Zsum (map (sk.bincount (sk.tp_bins y_true y_pred)) labels)
    = Z.of_nat (length (sk.tp_bins y_true y_pred))
  ∧ Zsum (map (sk.bincount y_pred) labels) = Z.of_nat (length y_pred)
  ∧ Zsum (map (sk.bincount y_true) labels) = Z.of_nat (length y_true).
Proof.
  intros labels. pose proof (unique_labels_NoDup y_true y_pred) as Hnodup.
  repeat split; apply Zsum_bincount; try exact Hnodup; apply Forall_forall;
    intros c Hc; apply elem_of_unique_labels.
  - apply elem_of_tp_bins in Hc as [? _]. by left.
  - by right.
  - by left.
Qed.

Lemma f_score_same (tp : Z) (p : Q) :
  (tp = 0%Z → p = 0%Q) → Qred p = p → sk.f_score tp p p = p.
Proof.
  intros Hzero Hred. unfold sk.f_score.
  destruct (decide (tp = 0%Z)) as [Htp | Htp]; [by rewrite Hzero |].
  transitivity (Qred p); [| exact Hred]. apply Qred_complete.
  destruct (Qeq_dec p 0) as [Hp | Hp].
  - rewrite Hp. reflexivity.
  - field. intros H2p. apply Hp. lra.
Qed.

Lemma prf_divide_reduced (a b : Z) : Qred (sk.prf_divide a b) = sk.prf_divide a b.
Proof.
  unfold sk.prf_divide. destruct (decide (b = 0%Z)); [reflexivity |].
  apply Qred_complete, Qred_correct.
Qed.

(** The micro average of a non-empty pair of sequences of one length. *)
Lemma prf_averaged_micro (y_true y_pred : list string) :
  length y_true = length y_pred →
  let acc := sk.prf_divide (Z.of_nat (matching_positions y_pred y_true))
                           (Z.of_nat (length y_true)) in
  sk.prf_averaged y_true y_pred micro = Ok (Fin acc, Fin acc, Fin acc).
Proof.
  intros Hlen acc. unfold sk.prf_averaged.
  rewrite check_consistent_length_Ok by done. cbn [mbind result_bind].
  destruct (micro_sums y_true y_pred) as (Htp & Hpred & Htrue).
  rewrite Htp, Hpred, Htrue, <- Hlen, tp_bins_matching.
  unfold sk.prf_of_sums. fold acc.
  rewrite f_score_same; [reflexivity | | apply prf_divide_reduced].
  intros Hzero. unfold acc. rewrite Hzero. apply prf_divide_0.
Qed.



(** *** Per-class scores *)

Lemma tp_bins_same (Y : list string) : sk.tp_bins Y Y = Y.
Proof.
  unfold sk.tp_bins. induction Y as [|y Y IH]; [reflexivity |].
  cbn [zip zip_with]. rewrite filter_cons_True by done.
  cbn [fmap list_fmap fst]. by rewrite IH.
Qed.

Lemma bincount_present (Y : list string) (c : string) :
  c ∈ Y ↔ (0 < sk.bincount Y c)%Z.
Proof.
  unfold sk.bincount. rewrite list_elem_of_In, (count_occ_In String.eq_dec). lia.
Qed.

Lemma bincount_tp_bins (y_true y_pred : list string) (c : string) :
  (0 ≤ sk.bincount (sk.tp_bins y_true y_pred) c ≤ sk.bincount y_true c)%Z
  ∧ (sk.bincount (sk.tp_bins y_true y_pred) c ≤ sk.bincount y_pred c)%Z.
Proof.
  revert y_pred. induction y_true as [|t y_true IH]; intros [|p y_pred];
    try (unfold sk.tp_bins, sk.bincount; simpl; lia).
  specialize (IH y_pred). unfold sk.tp_bins in *. cbn [zip zip_with].
  rewrite filter_cons. cbn [fst snd]. rewrite !(bincount_cons _ _ c).
  destruct (decide (t = p)) as [-> | Hne].
  - cbn [fmap list_fmap fst]. rewrite bincount_cons.
    destruct (decide (p = c)); lia.
  - destruct (decide (t = c)), (decide (p = c)); lia.
Qed.

(** Some position holds [c] in both sequences. *)
Lemma elem_of_tp_bins_iff (y_true y_pred : list string) (c : string) :
  c ∈ sk.tp_bins y_true y_pred
  ↔ ∃ k, y_true !! k = Some c ∧ y_pred !! k = Some c.
Proof.
  unfold sk.tp_bins. rewrite list_elem_of_fmap. split.
  - intros ([t p] & -> & [Heq Hin]%list_elem_of_filter). simpl in *. subst p.
    apply list_elem_of_lookup_1 in Hin as [k Hk].
    apply lookup_zip_Some in Hk. eauto.
  - intros (k & Ht & Hp). exists (c, c). split; [reflexivity |].
    apply list_elem_of_filter. split; [reflexivity |].
    apply list_elem_of_lookup_2 with k. by apply lookup_zip_Some.
Qed.

Lemma prf_divide_pos (a b : Z) : (0 < a ≤ b)%Z → (0 < sk.prf_divide a b)%Q.
Proof.
  intros [Ha Hab]. rewrite prf_divide_Qeq by lia.
  apply Qlt_shift_div_l.
  - change 0%Q with (inject_Z 0). rewrite <- Zlt_Qlt. lia.
  - rewrite Qmult_0_l. change 0%Q with (inject_Z 0). by rewrite <- Zlt_Qlt.
Qed.

Lemma f_score_bounds (tp : Z) (p r : Q) :
  (0 <= p <= 1)%Q → (0 <= r <= 1)%Q → (0 <= sk.f_score tp p r <= 1)%Q.
Proof.
  intros [Hp0 Hp1] [Hr0 Hr1]. unfold sk.f_score.
  destruct (decide (tp = 0%Z)); [lra |]. rewrite Qred_correct.
  destruct (Qlt_le_dec 0 (p + r)) as [Hpos | Hzero].
  - split.
    + apply Qle_shift_div_l; [exact Hpos |]. nra.
    + apply Qle_shift_div_r; [exact Hpos |]. nra.
  - assert (Hsum : (p + r == 0)%Q) by lra.
    unfold Qdiv. rewrite Hsum. change (/ 0)%Q with 0%Q. rewrite Qmult_0_r. lra.
Qed.

Lemma f_score_pos (tp : Z) (p r : Q) :
  tp ≠ 0%Z → (0 < p)%Q → (0 < r)%Q → (0 < sk.f_score tp p r)%Q.
Proof.
  intros Htp Hp Hr. unfold sk.f_score. rewrite decide_False by done.
  rewrite Qred_correct. apply Qlt_shift_div_l; [lra | nra].
Qed.

Lemma class_scores_bounds (Y_true Y_pred : list string) (c : string) :
  let s := class_scores Y_true Y_pred c in
  (0 <= precision s <= 1)%Q ∧ (0 <= recall s <= 1)%Q ∧ (0 <= f1 s <= 1)%Q
  ∧ ((precision s == 0)%Q ↔ c ∉ sk.tp_bins Y_true Y_pred)
  ∧ ((recall s == 0)%Q ↔ c ∉ sk.tp_bins Y_true Y_pred)
  ∧ ((f1 s == 0)%Q ↔ c ∉ sk.tp_bins Y_true Y_pred).
Proof.
  destruct (bincount_tp_bins Y_true Y_pred c) as [[Htp0 Htrue] Hpred].
  unfold class_scores, sk.prf_of_sums. cbn [precision recall f1].
  set (tp := sk.bincount (sk.tp_bins Y_true Y_pred) c) in *.
  pose proof (prf_divide_bounds tp (sk.bincount Y_pred c)) as Hp.
  pose proof (prf_divide_bounds tp (sk.bincount Y_true c)) as Hr.
  split; [apply Hp; lia |]. split; [apply Hr; lia |].
  split; [apply f_score_bounds; [apply Hp | apply Hr]; lia |].
  destruct (decide (c ∈ sk.tp_bins Y_true Y_pred)) as [Hin | Hnin].
  - pose proof (proj1 (bincount_present _ _) Hin) as Hpos. fold tp in Hpos.
    pose proof (prf_divide_pos tp (sk.bincount Y_pred c)) as Hp'.
    pose proof (prf_divide_pos tp (sk.bincount Y_true c)) as Hr'.
    pose proof (f_score_pos tp _ _ ltac:(lia) (Hp' ltac:(lia)) (Hr' ltac:(lia))) as Hf.
    repeat split; try done; intros H0; exfalso.
    + specialize (Hp' ltac:(lia)). lra.
    + specialize (Hr' ltac:(lia)). lra.
    + lra.
  - assert (Hzero : tp = 0%Z) by (by apply bincount_absent).
    rewrite Hzero, !prf_divide_0. unfold sk.f_score. rewrite decide_True by done.
    repeat split; done.
Qed.

(** X19. For sequences of one length every per-class precision, recall and
    F1 lies between 0 and 1, and for each class the three vanish together:
    exactly when no position holds the class both as prediction and as
    actual label. *)
Theorem precision_recall_f1_bounds (Y_pred Y_test : list string) (c : string) :
  length Y_pred = length Y_test → c ∈ classlist →
  ∃ metrics s,
    precision_recall_f1 Y_pred Y_test classlist = Ok metrics
    ∧ metrics !! c = Some s
    ∧ (0 <= precision s <= 1)%Q ∧ (0 <= recall s <= 1)%Q ∧ (0 <= f1 s <= 1)%Q
    ∧ let missed := ¬ ∃ k, Y_test !! k = Some c ∧ Y_pred !! k = Some c in
      ((precision s == 0)%Q ↔ missed)
      ∧ ((recall s == 0)%Q ↔ missed)
      ∧ ((f1 s == 0)%Q ↔ missed).
Proof.
  intros Hlen Hc.
  destruct (precision_recall_f1_Ok Y_pred Y_test classlist Hlen)
    as (metrics & Hmetrics & Hlookup).
  exists metrics, (class_scores Y_test Y_pred c).
  split; [exact Hmetrics |]. split; [by rewrite Hlookup, decide_True |].
  destruct (class_scores_bounds Y_test Y_pred c) as (Hp & Hr & Hf & Hp0 & Hr0 & Hf0).
  split; [exact Hp |]. split; [exact Hr |]. split; [exact Hf |].
  cbv zeta. rewrite <- elem_of_tp_bins_iff. auto.
Qed.

Lemma precision_recall_f1_bounds_witness :
  ∃ metrics s,
    precision_recall_f1 ["skills"; "others"] ["skills"; "skills"] classlist = Ok metrics
    ∧ metrics !! "others" = Some s
    ∧ (0 <= precision s <= 1)%Q ∧ (0 <= recall s <= 1)%Q ∧ (0 <= f1 s <= 1)%Q
    ∧ let missed := ¬ ∃ k, ["skills"; "skills"] !! k = Some "others"
                           ∧ ["skills"; "others"] !! k = Some "others" in
      ((precision s == 0)%Q ↔ missed)
      ∧ ((recall s == 0)%Q ↔ missed)
      ∧ ((f1 s == 0)%Q ↔ missed).
Proof.
  apply (precision_recall_f1_bounds ["skills"; "others"] ["skills"; "skills"] "others").
  - reflexivity.
  - apply (bool_decide_unpack _). vm_compute. reflexivity.
Defined.

(** X20. A perfect prediction scores 1 on precision, recall and F1 for
    every class that occurs, and 0 for every class that does not. *)
Theorem precision_recall_f1_perfect (Y : list string) (c : string) :
  c ∈ classlist →
  ∃ metrics,
    precision_recall_f1 Y Y classlist = Ok metrics
    ∧ metrics !! c
      = Some (if decide (c ∈ Y) then mk_scores 1 1 1 else mk_scores 0 0 0).
Proof.
  intros Hc.
  destruct (precision_recall_f1_Ok Y Y classlist eq_refl)
    as (metrics & Hmetrics & Hlookup).
  exists metrics. split; [exact Hmetrics |].
  rewrite Hlookup, decide_True by done. f_equal.
  destruct (decide (c ∈ Y)) as [Hin | Hnin].
  - unfold class_scores, sk.prf_of_sums. rewrite tp_bins_same.
    apply bincount_present in Hin.
    rewrite prf_divide_same by lia.
    rewrite f_score_same; [reflexivity | lia | reflexivity].
  - apply class_scores_degenerate. by left.
Qed.

Lemma precision_recall_f1_perfect_witness :
  ∃ metrics,
    precision_recall_f1 ["skills"; "others"] ["skills"; "others"] classlist = Ok metrics
    ∧ metrics !! "skills"
      = Some (if decide ("skills" ∈ ["skills"; "others"]) then mk_scores 1 1 1
              else mk_scores 0 0 0).
Proof.
  apply (precision_recall_f1_perfect ["skills"; "others"] "skills").
  apply (bool_decide_unpack _). vm_compute. reflexivity.
Defined.

(** *** The confusion matrix *)

Section Counting.
Context {A : Type} `{EqDecision A}.

Lemma Zsum_indicator_keys (x : A) (keys : list A) :
  NoDup keys →
  Zsum (map (fun k => if decide (x = k) then 1%Z else 0%Z) keys)
  = if decide (x ∈ keys) then 1%Z else 0%Z.
Proof.
  induction 1 as [|k keys Hk _ IH]; [reflexivity |].
  cbn [map Zsum foldr].
  fold (Zsum (map (fun k => if decide (x = k) then 1%Z else 0%Z) keys)).
  rewrite IH. destruct (decide (x = k)) as [-> | Hne].
  - rewrite decide_False by done. rewrite decide_True by left. reflexivity.
  - destruct (decide (x ∈ keys)) as [Hin | Hnin].
    + rewrite decide_True by (by right). reflexivity.
    + rewrite decide_False; [reflexivity |]. by intros [? | ?]%elem_of_cons.
Qed.

Lemma Zsum_plus_keys (f g : A → Z) (keys : list A) :
  Zsum (map (fun k => (f k + g k)%Z) keys)
  = (Zsum (map f keys) + Zsum (map g keys))%Z.
Proof.
  induction keys as [|k keys IH]; [reflexivity |].
  cbn [map Zsum foldr] in *. unfold Zsum in IH. lia.
Qed.

(** Counting the occurrences of each of some distinct keys counts the
    elements that are one of the keys. *)
Lemma Zsum_count (l keys : list A) :
  NoDup keys →
  Zsum (map (fun k => Z.of_nat (length (filter (fun x => x = k) l))) keys)
  = Z.of_nat (length (filter (fun x => x ∈ keys) l)).
Proof.
  intros Hnodup. induction l as [|x l IH].
  - induction keys as [|k keys IHk]; [reflexivity |].
    apply NoDup_cons in Hnodup as [_ Hnodup]. cbn [map Zsum foldr].
    specialize (IHk Hnodup). unfold Zsum in IHk. rewrite IHk. reflexivity.
  - rewrite (map_ext _ (fun k => ((if decide (x = k) then 1 else 0)
                                  + Z.of_nat (length (filter (fun x => x = k) l)))%Z)).
    + rewrite Zsum_plus_keys, Zsum_indicator_keys, IH by done.
      rewrite filter_cons. destruct (decide (x ∈ keys)); cbn [length]; lia.
    + intros k. rewrite filter_cons. destruct (decide (x = k)); cbn [length]; lia.
Qed.

Lemma length_filter_ext (P R : A → Prop) `{!∀ x, Decision (P x)}
    `{!∀ x, Decision (R x)} (l : list A) :
  Forall (fun x => P x ↔ R x) l → length (filter P l) = length (filter R l).
Proof.
  induction 1 as [|x l Hx _ IH]; [reflexivity |].
  rewrite !filter_cons.
  destruct (decide (P x)) as [HP | HP], (decide (R x)) as [HR | HR];
    cbn [length]; rewrite ?IH; try reflexivity; tauto.
Qed.

Lemma length_filter_all (P : A → Prop) `{!∀ x, Decision (P x)} (l : list A) :
  Forall P l → length (filter P l) = length l.
Proof.
  induction 1 as [|x l Hx _ IH]; [reflexivity |].
  rewrite filter_cons_True by done. cbn [length]. by rewrite IH.
Qed.
End Counting.

Lemma confusion_matrix_Ok_inv (y_true y_pred labels : list string)
    (cf : list (list Z)) :
  sk.confusion_matrix y_true y_pred labels = Ok cf →
  cf = map (fun t =>
              map (fun p => Z.of_nat (length (filter (fun tp => tp = (t, p))
                                                     (zip y_true y_pred))))
                  labels)
           labels.
Proof.
  unfold sk.confusion_matrix.
  destruct (sk.check_consistent_length y_true y_pred); [| discriminate].
  cbn [mbind result_bind]. destruct (forallb _ labels); [discriminate |].
  by intros [= <-].
Qed.

(** X21. For sequences of class labels the confusion matrix of a report is
    5 by 5, its entries add up to the number of samples, and its diagonal
    adds up to the number of correct predictions: samples minus the
    incorrect count. *)
Theorem report_confusion_matrix (Y_pred Y_true : list string)
    (dataset_type : string) (r : report) :
  calculatePerformanceMetrics Y_pred Y_true dataset_type = Ok r →
  Forall (fun y => y ∈ classlist) Y_true →
  Forall (fun y => y ∈ classlist) Y_pred →
  length (cf_matrix r) = 5%nat
  ∧ Forall (fun row => length row = 5%nat) (cf_matrix r)
  ∧ matrix_total (cf_matrix r) = Z.of_nat (length Y_true)
  ∧ matrix_trace (cf_matrix r) = (Z.of_nat (length Y_true) - num_incorrect r)%Z.
Proof.
  intros Hr Htrue Hpred.
  destruct (calculatePerformanceMetrics_Ok_inv _ _ _ _ Hr)
    as (Hlen & Hinc & _ & _ & _ & Hcf%confusion_matrix_Ok_inv).
  rewrite Hcf, Hinc. clear Hr Hcf Hinc.
  split; [reflexivity |]. split; [by repeat constructor |]. split.
  - transitivity
      (Zsum (map (fun tp0 : string * string =>
                    Z.of_nat (length (filter (fun tp => tp = tp0) (zip Y_true Y_pred))))
                 (list_prod classlist classlist))).
    { unfold matrix_total, classlist.
      cbn [map fmap list_fmap Zsum foldr list_prod flat_map app]. lia. }
    rewrite Zsum_count.
    + rewrite length_filter_all; [by rewrite length_zip, Nat.min_l by lia |].
      apply Forall_forall. intros [t p] Htp.
      apply list_elem_of_In, in_prod_iff. rewrite <- !list_elem_of_In. split.
      * rewrite Forall_forall in Htrue. apply Htrue. by eapply elem_of_zip_l.
      * rewrite Forall_forall in Hpred. apply Hpred. by eapply elem_of_zip_r.
    + apply (bool_decide_unpack _). vm_compute. reflexivity.
  - transitivity
      (Zsum (map (fun tp0 : string * string =>
                    Z.of_nat (length (filter (fun tp => tp = tp0) (zip Y_true Y_pred))))
                 ((fun c => (c, c)) <$> classlist))).
    { unfold matrix_trace, classlist.
      cbn [map fmap list_fmap Zsum foldr imap lookup list_lookup default
           from_option compose]. reflexivity. }
    rewrite Zsum_count.
    + rewrite (length_filter_ext _ (fun tp => tp.1 = tp.2)).
      * pose proof (length_fmap fst (filter (fun tp => tp.1 = tp.2) (zip Y_true Y_pred)))
          as Hfst. fold (sk.tp_bins Y_true Y_pred) in Hfst. lia.
      * apply Forall_forall. intros [t p] Htp. rewrite list_elem_of_fmap. split.
        -- by intros (c & [= -> ->] & _).
        -- simpl. intros <-. exists t. split; [reflexivity |].
           rewrite Forall_forall in Htrue. apply Htrue. by eapply elem_of_zip_l.
    + apply (bool_decide_unpack _). vm_compute. reflexivity.
Qed.

Lemma report_confusion_matrix_witness :
  ∃ r, calculatePerformanceMetrics ["skills"; "others"; "skills"]
         ["skills"; "skills"; "others"] "testing" = Ok r
       ∧ length (cf_matrix r) = 5%nat
       ∧ Forall (fun row => length row = 5%nat) (cf_matrix r)
       ∧ matrix_total (cf_matrix r)
         = Z.of_nat (length ["skills"; "skills"; "others"])
       ∧ matrix_trace (cf_matrix r)
         = (Z.of_nat (length ["skills"; "skills"; "others"]) - num_incorrect r)%Z.
Proof.
  eexists. split; [vm_compute; reflexivity |].
  apply (report_confusion_matrix ["skills"; "others"; "skills"]
           ["skills"; "skills"; "others"] "testing").
  - vm_compute. reflexivity.
  - apply (bool_decide_unpack _). vm_compute. reflexivity.
  - apply (bool_decide_unpack _). vm_compute. reflexivity.
Defined.



(** *** Extreme accuracies *)

Lemma matching_positions_full (Y_pred Y_true : list string) :
  length Y_pred = length Y_true →
  matching_positions Y_pred Y_true = length Y_true → Y_pred = Y_true.
Proof.
  revert Y_pred. induction Y_true as [|t Y_true IH]; intros [|p Y_pred] Hlen Hfull;
    try discriminate Hlen; [reflexivity |].
  rewrite matching_positions_cons in Hfull. cbn [length] in Hfull.
  pose proof (matching_positions_le Y_pred Y_true) as Hle.
  destruct (decide (t = p)) as [-> | Hne]; [| lia].
  f_equal. apply IH; [by injection Hlen | lia].
Qed.

Lemma matching_positions_none (Y_pred Y_true : list string) :
  matching_positions Y_pred Y_true = 0%nat
  ↔ ¬ ∃ k y, Y_pred !! k = Some y ∧ Y_true !! k = Some y.
Proof.
  rewrite <- tp_bins_matching. split.
  - intros Hnil%nil_length_inv (k & y & Hp & Ht).
    assert (Hin : y ∈ sk.tp_bins Y_true Y_pred) by (apply elem_of_tp_bins_iff; eauto).
    rewrite Hnil in Hin. by apply elem_of_nil in Hin.
  - intros Hnone. destruct (sk.tp_bins Y_true Y_pred) as [|y l] eqn:Hbins;
      [reflexivity |].
    exfalso. apply Hnone.
    assert (Hin : y ∈ sk.tp_bins Y_true Y_pred) by (rewrite Hbins; left).
    apply elem_of_tp_bins_iff in Hin as (k & Ht & Hp). eauto.
Qed.

(** X23. The accuracy of a report is 1.0 exactly when the predicted
    sequence is the actual sequence, and 0.0 exactly when no position
    holds the same label in both. *)
Theorem report_accuracy_extremes (Y_pred Y_true : list string)
    (dataset_type : string) (r : report) :
  calculatePerformanceMetrics Y_pred Y_true dataset_type = Ok r →
  (accuracy r = Fin 1 ↔ Y_pred = Y_true)
  ∧ (accuracy r = Fin 0
     ↔ ¬ ∃ k y, Y_pred !! k = Some y ∧ Y_true !! k = Some y).
Proof.
  intros (Hne & Hlen & _ & ->)%report_accuracy.
  pose proof (matching_positions_le Y_pred Y_true) as Hle.
  assert (Hn : (0 < Z.of_nat (length Y_true))%Z)
    by (destruct Y_true; [done | simpl; lia]).
  set (m := matching_positions Y_pred Y_true) in *.
  split.
  - split.
    + intros [= Hone]. apply matching_positions_full; [exact Hlen |]. fold m.
      assert (Hq : (inject_Z (Z.of_nat m) / inject_Z (Z.of_nat (length Y_true)) == 1)%Q).
      { rewrite <- prf_divide_Qeq by lia. by rewrite Hone. }
      assert (Hm : (inject_Z (Z.of_nat m) == inject_Z (Z.of_nat (length Y_true)))%Q).
      { rewrite <- (Qmult_1_l (inject_Z (Z.of_nat (length Y_true)))), <- Hq.
        field. change 0%Q with (inject_Z 0). rewrite inject_Z_injective. lia. }
      unfold Qeq in Hm. simpl in Hm. subst m. lia.
    + intros Heq. f_equal. unfold m. rewrite Heq, matching_positions_same.
      apply prf_divide_same. lia.
  - rewrite <- matching_positions_none. fold m. split.
    + intros [= Hzero]. destruct (decide (m = 0%nat)) as [| Hpos]; [done |].
      pose proof (prf_divide_pos (Z.of_nat m) (Z.of_nat (length Y_true))) as Hp.
      rewrite Hzero in Hp. specialize (Hp ltac:(lia)). lra.
    + intros ->. f_equal. apply prf_divide_0.
Qed.

Lemma report_accuracy_extremes_witness :
  ∃ r, calculatePerformanceMetrics ["skills"; "others"] ["skills"; "others"] "testing"
       = Ok r
       ∧ (accuracy r = Fin 1 ↔ ["skills"; "others"] = ["skills"; "others"])
       ∧ (accuracy r = Fin 0
          ↔ ¬ ∃ k y, ["skills"; "others"] !! k = Some y
                     ∧ ["skills"; "others"] !! k = Some y).
Proof.
  eexists. split; [vm_compute; reflexivity |].
  apply (report_accuracy_extremes ["skills"; "others"] ["skills"; "others"] "testing").
  vm_compute. reflexivity.
Defined.

(** ** The decoders on one-hot encodings *)

Lemma onehot_decoded (L : string) (j : nat) :
  (L, j) ∈ ENC_LIST →
  bucket_string PROB_THRESHOLD (onehot j) = L
  ∧ overflows PROB_THRESHOLD 0 (onehot j) = false
  ∧ confidence_flag (onehot j) = Ok (PyStr "YES").
Proof.
  intros HL. unfold ENC_LIST in HL. elem_cases HL; repeat split; vm_compute; reflexivity.
Qed.

(** X24. On the encoding of a label sequence all decoders agree: the
    multi-bucket decoder at [PROB_THRESHOLD] returns for each row the one
    label that was encoded, with no separator, and every row is flagged
    "YES". *)
Theorem decoders_on_encoding {T : Type} (Y : list string) (sens : list T) :
  Y ≠ [] → Forall (fun y => y ∈ class_labels) Y → (length Y ≤ length sens)%nat →
  ∃ M, str2onehot Y = Ok M
       ∧ prob2str_multibucket M sens = Ok (Y, take (length Y) sens)
       ∧ calculatePredictionConfidence M = Ok (replicate (length Y) (PyStr "YES")).
Proof.
  intros Hne [js Hjs]%class_labels_indices Hlen.
  exists (onehot <$> js). split; [by apply str2onehot_Ok |].
  pose proof (Forall2_length _ _ _ Hjs) as Hlen'. split.
  - unfold prob2str_multibucket. rewrite prob2str_multibucket_at_any.
    rewrite length_fmap, <- Hlen', take_ge by (rewrite length_fmap; lia).
    assert (Hquiet : existsb (overflows PROB_THRESHOLD 0) (onehot <$> js) = false).
    { clear -Hjs. induction Hjs as [|y j Y js Hyj _ IH]; [reflexivity |].
      cbn [fmap list_fmap existsb].
      destruct (onehot_decoded y j Hyj) as (_ & -> & _). exact IH. }
    rewrite Hquiet. f_equal. f_equal.
    clear -Hjs. induction Hjs as [|y j Y js Hyj _ IH]; [reflexivity |].
    cbn [fmap list_fmap]. destruct (onehot_decoded y j Hyj) as (-> & _).
    f_equal. exact IH.
  - rewrite calculatePredictionConfidence_unfold. apply py_map_Ok.
    clear -Hjs. induction Hjs as [|y j Y js Hyj _ IH]; [constructor |].
    cbn [fmap list_fmap length replicate]. constructor; [| exact IH].
    by destruct (onehot_decoded y j Hyj) as (_ & _ & ?).
Qed.

Lemma decoders_on_encoding_witness :
  ∃ M, str2onehot ["skills"; "others"] = Ok M
       ∧ prob2str_multibucket M ["a"; "b"; "c"]
         = Ok (["skills"; "others"], take (length ["skills"; "others"]) ["a"; "b"; "c"])
       ∧ calculatePredictionConfidence M
         = Ok (replicate (length ["skills"; "others"]) (PyStr "YES")).
Proof.
  apply (decoders_on_encoding ["skills"; "others"] ["a"; "b"; "c"]).
  - discriminate.
  - apply (bool_decide_unpack _). vm_compute. reflexivity.
  - simpl. lia.
Defined.

(** ** The aggregate scores *)

Lemma prf_averaged_macro (y_true y_pred : list string) :
  length y_true = length y_pred →
  let labels := sk.unique_labels y_true y_pred in
  sk.prf_averaged y_true y_pred macro
  = Ok (sk.np_average ((fun c => precision (class_scores y_true y_pred c)) <$> labels),
        sk.np_average ((fun c => recall (class_scores y_true y_pred c)) <$> labels),
        sk.np_average ((fun c => f1 (class_scores y_true y_pred c)) <$> labels)).
Proof.
  intros Hlen labels. unfold sk.prf_averaged.
  rewrite check_consistent_length_Ok by done. cbn [mbind result_bind].
  fold labels. by rewrite <- !list_fmap_compose.
Qed.

Lemma prf_averaged_weighted (y_true y_pred : list string) :
  length y_true = length y_pred → y_true ≠ [] →
  let labels := sk.unique_labels y_true y_pred in
  let wavg (g : string → Q) : np_float :=
    Fin (Qred (Qsum (zip_with (fun w x => inject_Z w * x)%Q
                       (sk.bincount y_true <$> labels) (g <$> labels))
               / inject_Z (Z.of_nat (length y_true)))) in
  sk.prf_averaged y_true y_pred weighted
  = Ok (wavg (fun c => precision (class_scores y_true y_pred c)),
        wavg (fun c => recall (class_scores y_true y_pred c)),
        wavg (fun c => f1 (class_scores y_true y_pred c))).
Proof.
  intros Hlen Hne labels wavg. unfold sk.prf_averaged.
  rewrite check_consistent_length_Ok by done. cbn [mbind result_bind].
  fold labels. destruct (micro_sums y_true y_pred) as (_ & _ & Htrue).
  fold labels in Htrue. rewrite Htrue.
  rewrite decide_False by (destruct y_true; [done | simpl; lia]).
  unfold wavg. by rewrite <- !list_fmap_compose.
Qed.

Lemma unique_labels_nonempty (y_true y_pred : list string) :
  y_true ≠ [] → sk.unique_labels y_true y_pred ≠ [].
Proof.
  intros Hne Hnil. destruct y_true as [|y y_true]; [done |].
  assert (Hin : y ∈ sk.unique_labels (y :: y_true) y_pred)
    by (apply elem_of_unique_labels; left; left).
  rewrite Hnil in Hin. by apply elem_of_nil in Hin.
Qed.

Lemma Qsum_ones (g : string → Q) (labels : list string) :
  Forall (fun c => g c = 1%Q) labels →
  (Qsum (g <$> labels) == inject_Z (Z.of_nat (length labels)))%Q.
Proof.
  induction 1 as [|c labels Hc _ IH]; [reflexivity |].
  cbn [fmap list_fmap Qsum foldr length]. fold (Qsum (g <$> labels)).
  rewrite Hc, IH, Nat2Z.inj_succ, <- Z.add_1_l, inject_Z_plus. reflexivity.
Qed.

Lemma Qsum_weighted_ones (w g : string → _) (labels : list string) :
  Forall (fun c => g c = 1%Q) labels →
  (Qsum (zip_with (fun w x => inject_Z w * x)%Q (w <$> labels) (g <$> labels))
   == inject_Z (Zsum (w <$> labels)))%Q.
Proof.
  induction 1 as [|c labels Hc _ IH]; [reflexivity |].
  cbn [fmap list_fmap zip_with Qsum Zsum foldr].
  fold (Qsum (zip_with (fun w x => inject_Z w * x)%Q (w <$> labels) (g <$> labels))).
  fold (Zsum (w <$> labels)).
  rewrite Hc, IH, inject_Z_plus. ring.
Qed.

Lemma Qred_ratio_one (q : Q) (a : Z) :
  a ≠ 0%Z → (q == inject_Z a)%Q → Qred (q / inject_Z a) = 1%Q.
Proof.
  intros Ha Hq. change 1%Q with (Qred 1). apply Qred_complete. rewrite Hq.
  apply Qmult_inv_r. change 0%Q with (inject_Z 0). by rewrite inject_Z_injective.
Qed.

Lemma class_scores_perfect (Y : list string) (c : string) :
  c ∈ Y → class_scores Y Y c = mk_scores 1 1 1.
Proof.
  intros Hin%bincount_present. unfold class_scores, sk.prf_of_sums.
  rewrite tp_bins_same, prf_divide_same by lia.
  rewrite f_score_same; [reflexivity | lia | reflexivity].
Qed.

(** X25. For a perfect prediction all nine aggregate scores of the report,
    micro, macro and weighted precision, recall and F1, are 1.0. *)
Theorem report_perfect_aggregates (Y : list string) (dataset_type : string)
    (r : report) :
  calculatePerformanceMetrics Y Y dataset_type = Ok r →
  Forall (fun key => micro_macro_weighted_scores r !! key = Some (Fin 1))
    [ "micro_precision"; "micro_recall"; "micro_f1";
      "macro_precision"; "macro_recall"; "macro_f1";
      "weighted_precision"; "weighted_recall"; "weighted_f1" ].
Proof.
  intros Hr. destruct (report_accuracy _ _ _ _ Hr) as (Hne & _ & _ & _).
  apply calculatePerformanceMetrics_Ok_inv in Hr as (_ & _ & _ & _ & Hw & _).
  assert (Hn : Z.of_nat (length Y) ≠ 0%Z) by (destruct Y; [done | simpl; lia]).
  pose proof (unique_labels_nonempty Y Y Hne) as Hlabels.
  assert (Hall : ∀ g : scores → Q, g (mk_scores 1 1 1) = 1%Q →
            Forall (fun c => g (class_scores Y Y c) = 1%Q) (sk.unique_labels Y Y)).
  { intros g Hg. apply Forall_forall. intros c Hc.
    apply elem_of_unique_labels in Hc. rewrite class_scores_perfect; [done | tauto]. }
  assert (Hmacro : ∀ g : scores → Q, g (mk_scores 1 1 1) = 1%Q →
            sk.np_average ((fun c => g (class_scores Y Y c)) <$> sk.unique_labels Y Y)
            = Fin 1).
  { intros g Hg. unfold sk.np_average.
    destruct ((fun c => g (class_scores Y Y c)) <$> sk.unique_labels Y Y)
      as [|x xs] eqn:Hxs.
    - apply fmap_nil_inv in Hxs. done.
    - rewrite <- Hxs. f_equal. rewrite length_fmap. apply Qred_ratio_one.
      + destruct (sk.unique_labels Y Y); [done | simpl; lia].
      + by apply (Qsum_ones (fun c => g (class_scores Y Y c))), Hall. }
  assert (Hweighted : ∀ g : scores → Q, g (mk_scores 1 1 1) = 1%Q →
            Qred (Qsum (zip_with (fun w x => inject_Z w * x)%Q
                          (sk.bincount Y <$> sk.unique_labels Y Y)
                          ((fun c => g (class_scores Y Y c)) <$> sk.unique_labels Y Y))
                  / inject_Z (Z.of_nat (length Y))) = 1%Q).
  { intros g Hg. apply Qred_ratio_one; [exact Hn |].
    rewrite (Qsum_weighted_ones (sk.bincount Y) (fun c => g (class_scores Y Y c)))
      by by apply Hall.
    destruct (micro_sums Y Y) as (_ & _ & Htrue). by rewrite <- Htrue. }
  unfold micro_macro_weighted, sk.precision_score, sk.recall_score, sk.f1_score in Hw.
  rewrite (prf_averaged_micro Y Y eq_refl), (prf_averaged_macro Y Y eq_refl),
    (prf_averaged_weighted Y Y eq_refl Hne) in Hw.
  rewrite (Hmacro precision), (Hmacro recall), (Hmacro f1),
    (Hweighted precision), (Hweighted recall), (Hweighted f1) in Hw by reflexivity.
  rewrite matching_positions_same, prf_divide_same in Hw by done.
  cbn [mbind result_bind fst snd] in Hw. injection Hw as <-.
  repeat constructor; vm_compute; reflexivity.
Qed.

Lemma report_perfect_aggregates_witness :
  ∃ r, calculatePerformanceMetrics ["skills"; "others"] ["skills"; "others"] "testing"
       = Ok r
       ∧ Forall (fun key => micro_macro_weighted_scores r !! key = Some (Fin 1))
           [ "micro_precision"; "micro_recall"; "micro_f1";
             "macro_precision"; "macro_recall"; "macro_f1";
             "weighted_precision"; "weighted_recall"; "weighted_f1" ].
Proof.
  eexists. split; [vm_compute; reflexivity |].
  apply (report_perfect_aggregates ["skills"; "others"] "testing").
  vm_compute. reflexivity.
Defined.





(** ** Decoding, then scoring *)

Lemma onehot2str_five_columns (P : list (list Q)) :
  Forall (fun row => length row = 5%nat) P → ∃ labels, onehot2str P = Ok labels.
Proof.
  intros Hshape. rewrite onehot2str_unfold.
  assert (Hidx : ∃ idx_list,
    py_map np.argmax P = Ok idx_list ∧ Forall (fun i => (i < 5)%nat) idx_list).
  { induction Hshape as [|row P Hrow _ (idx_list & Hidx & Hlt)].
    - exists []. split; [reflexivity | constructor].
    - destruct (argmax_first_max row) as (i & Hi & Hmax).
      { intros ->. discriminate Hrow. }
      exists (i :: idx_list). split.
      + simpl. by rewrite Hi, Hidx.
      + constructor; [| exact Hlt]. rewrite <- Hrow. by apply first_max_lt_length. }
  destruct Hidx as (idx_list & -> & Hlt). cbn [mbind result_bind].
  apply py_map_total. eapply Forall_impl; [exact Hlt |].
  intros i [L HL]%index_label. exists L. by apply decode_index.
Qed.

(** X27. The evaluation step of the script never fails on well-formed
    data: for a non-empty probability matrix with five columns and as many
    actual class labels as rows, [onehot2str] yields the predictions and
    [calculatePerformanceMetrics] yields a report on them, whose confusion
    matrix accounts for every sample. *)
Theorem decode_then_score (pred : list (list Q)) (Y : list string)
    (dataset_type : string) :
  pred ≠ [] →
  Forall (fun row => length row = 5%nat) pred →
  Forall (fun y => y ∈ class_labels) Y →
  length Y = length pred →
  ∃ Y_pred r,
    onehot2str pred = Ok Y_pred
    ∧ calculatePerformanceMetrics Y_pred Y dataset_type = Ok r
    ∧ matrix_total (cf_matrix r) = Z.of_nat (length pred).
Proof.
  intros Hne Hshape HY Hlen.
  destruct (onehot2str_five_columns pred Hshape) as [Y_pred Hpred].
  destruct (onehot2str_Ok_labels pred Y_pred Hpred) as [Hlen' Hknown].
  exists Y_pred.
  assert (HYc : Forall (fun y => y ∈ classlist) Y).
  { eapply Forall_impl; [exact HY |]. intros y. apply classlist_class_labels. }
  assert (Hpc : Forall (fun y => y ∈ classlist) Y_pred).
  { eapply Forall_impl; [exact Hknown |]. intros y. apply classlist_class_labels. }
  destruct (calculatePerformanceMetrics_equal Y_pred Y dataset_type)
    as [[_ (metrics & results & cf & log & _ & Hr)] | [Hnex _]]; [congruence | |].
  - eexists. split; [exact Hpred |]. split; [exact Hr |].
    destruct (calculatePerformanceMetrics_Ok_inv _ _ _ _ Hr)
      as (_ & _ & _ & _ & _ & Hcf%confusion_matrix_Ok_inv).
    rewrite Hcf, <- Hlen.
    transitivity
      (Zsum (map (fun tp0 : string * string =>
                    Z.of_nat (length (filter (fun tp => tp = tp0) (zip Y Y_pred))))
                 (list_prod classlist classlist))).
    { unfold matrix_total, classlist.
      cbn [map fmap list_fmap Zsum foldr list_prod flat_map app]. lia. }
    rewrite Zsum_count.
    + rewrite length_filter_all; [by rewrite length_zip, Nat.min_l by lia |].
      apply Forall_forall. intros [t p] Htp.
      apply list_elem_of_In, in_prod_iff. rewrite <- !list_elem_of_In. split.
      * rewrite Forall_forall in HYc. apply HYc. by eapply elem_of_zip_l.
      * rewrite Forall_forall in Hpc. apply Hpc. by eapply elem_of_zip_r.
    + apply (bool_decide_unpack _). vm_compute. reflexivity.
  - exfalso. apply Hnex. destruct Y as [|y Y]; [by destruct pred |].
    apply Forall_cons in HYc as [Hy _].
    apply Exists_exists. exists y. split; [exact Hy | left].
Qed.

Lemma decode_then_score_witness :
  ∃ Y_pred r,
    onehot2str [confident_row; unsure_row] = Ok Y_pred
    ∧ calculatePerformanceMetrics Y_pred ["others"; "skills"] "testing" = Ok r
    ∧ matrix_total (cf_matrix r) = Z.of_nat (length [confident_row; unsure_row]).
Proof.
  apply (decode_then_score [confident_row; unsure_row] ["others"; "skills"] "testing").
  - discriminate.
  - repeat constructor.
  - apply (bool_decide_unpack _). vm_compute. reflexivity.
  - reflexivity.
Defined.
